(** * Rwanda merchandise-trade dashboard: filter / aggregate engine and
      the synthetic data generator

    A shallow embedding of [rwanda_trade_dashboard.py] (module [Dashboard])
    and [create_rwanda_trade_data.py] (module [Generator]).

    Conventions of the embedding:
    - a pandas DataFrame is the list of its rows, in index order; a boolean
      mask selection [df[mask]] is stdpp's order-preserving [filter];
    - a Python dict is a [gmap]; a dict literal is the sequence of its
      insertions, in the order they are written;
    - finite numbers are exact rationals ([Q]); the results of a numpy
      float64 division, which may be [nan] or [inf], live in [float64];
      numeric equalities are stated up to [Qeq];
    - [np.random], [np.sin] and [np.pi] are parameters of the generator. *)

From Stdlib Require Import ZArith QArith Qround Qabs Lqa Lia.
From Stdlib Require OrdersEx.
From stdpp Require Import base list gmap strings sorting.

#[local] Open Scope string_scope.

(** ** Numbers *)

Module Num.

#[local] Open Scope Q_scope.

(** [Series.sum()] over finite values. *)
Definition sumQ (l : list Q) : Q := foldr Qplus 0 l.
Arguments sumQ : simpl never.

(** Round half to even, the rounding of [round] and [np.round]. *)
Definition rint (q : Q) : Z :=
  let f := Qfloor q in
  match Qcompare (q - inject_Z f) (1 # 2) with
  | Lt => f
  | Gt => (f + 1)%Z
  | Eq => if Z.even f then f else (f + 1)%Z
  end.

(** [round(q, ndigits)] for [ndigits >= 0]. *)
Definition round (q : Q) (ndigits : Z) : Q :=
  inject_Z (rint (q * inject_Z (10 ^ ndigits))) / inject_Z (10 ^ ndigits).

(** Results of numpy float64 arithmetic: a finite value, an infinity or
    nan.  Division by zero does not raise on numpy scalars and Series, it
    yields [nan] (0/0) or a signed infinity. *)
Inductive float64 : Type :=
| Fin (q : Q)
| PosInf
| NegInf
| NaN.

Definition truediv (a b : Q) : float64 :=
  if Qeq_bool b 0 then
    match Qcompare a 0 with
    | Eq => NaN
    | Gt => PosInf
    | Lt => NegInf
    end
  else Fin (a / b).

(** [x * c] for a finite constant [c]. *)
Definition fmul (x : float64) (c : Q) : float64 :=
  match x with
  | Fin q => Fin (q * c)
  | PosInf => match Qcompare c 0 with Gt => PosInf | Lt => NegInf | Eq => NaN end
  | NegInf => match Qcompare c 0 with Gt => NegInf | Lt => PosInf | Eq => NaN end
  | NaN => NaN
  end.

(** [x.round(ndigits)]. *)
Definition fround (x : float64) (ndigits : Z) : float64 :=
  match x with
  | Fin q => Fin (round q ndigits)
  | _ => x
  end.

(** Equality of float64 results, up to [Qeq] on the finite ones. *)
Definition feq (x y : float64) : Prop :=
  match x, y with
  | Fin a, Fin b => a == b
  | PosInf, PosInf | NegInf, NegInf | NaN, NaN => True
  | _, _ => False
  end.

#[export] Instance Qeq_decision (x y : Q) : Decision (x == y)%Q := Qeq_dec x y.

Definition is_finite (x : float64) : Prop :=
  match x with Fin _ => True | _ => False end.

End Num.

Import Num.

(** ** Sorting

    A stable insertion sort: an element goes in front of the first element
    it is [le] to, so equal elements keep their order of appearance. *)

Fixpoint insert_sorted {A} (le : A → A → bool) (x : A) (l : list A) : list A :=
  match l with
  | [] => [x]
  | y :: l' => if le x y then x :: l else y :: insert_sorted le x l'
  end.

Definition stable_sort {A} (le : A → A → bool) (l : list A) : list A :=
  foldr (insert_sorted le) [] l.

(** ** The dashboard *)

Module Dashboard.

(** One row of the loaded table, with the columns of the input file;
    [Date] is a (year, month, day) triple. *)
Record Row : Type := {
  Year : Z;
  Month : Z;
  Quarter : string;
  Flow : string;
  Partner_Country : string;
  Partner_Continent : string;
  Regional_Block : string;
  HS_Code : string;
  HS_Description : string;
  Trade_Value_USD : Q;
  Quantity_KG : Q;
  Month_Name : string;
  Date : Z * Z * Z
}.

Abbreviation DataFrame := (list Row).

(** *** Data engine: [filter_data] *)

Definition filter_data (df : DataFrame) (year : Z) (quarter month flow : string)
    (hs_codes : list string) : DataFrame :=
  let filtered := filter (λ r, Year r = year) df in
  let filtered :=
    if decide (quarter ≠ "All") then filter (λ r, Quarter r = quarter) filtered
    else filtered in
  let filtered :=
    if decide (month ≠ "All") then filter (λ r, Month_Name r = month) filtered
    else filtered in
  let filtered :=
    if decide (flow ≠ "All") then filter (λ r, Flow r = flow) filtered
    else filtered in
  let filtered :=
    if decide ("All" ∉ hs_codes) then filter (λ r, HS_Code r ∈ hs_codes) filtered
    else filtered in
  filtered.

(** The row predicate of [filter_data], with the sentinel written out. *)
Definition selected (year : Z) (quarter month flow : string)
    (hs_codes : list string) (r : Row) : Prop :=
  Year r = year
  ∧ (quarter ≠ "All" → Quarter r = quarter)
  ∧ (month ≠ "All" → Month_Name r = month)
  ∧ (flow ≠ "All" → Flow r = flow)
  ∧ ("All" ∉ hs_codes → HS_Code r ∈ hs_codes).

#[export] Instance selected_dec year quarter month flow hs_codes r :
  Decision (selected year quarter month flow hs_codes r).
Proof. unfold selected. apply _. Defined.

(** The filter specification in the words of the specification: optional
    fields, where [None] means no restriction on that dimension. *)
Record FilterSpec : Type := {
  spec_year : Z;
  spec_quarter : option string;
  spec_month_name : option string;
  spec_flow : option string;
  spec_hs_codes : option (list string)
}.

Definition restricts {A} (field : option A) (P : A → Prop) : Prop :=
  match field with
  | None => True
  | Some a => P a
  end.

#[export] Instance restricts_dec {A} (field : option A) (P : A → Prop)
  `{∀ a, Decision (P a)} : Decision (restricts field P).
Proof. destruct field; simpl; apply _. Defined.

Definition satisfies (spec : FilterSpec) (r : Row) : Prop :=
  Year r = spec_year spec
  ∧ restricts (spec_quarter spec) (λ q, Quarter r = q)
  ∧ restricts (spec_month_name spec) (λ m, Month_Name r = m)
  ∧ restricts (spec_flow spec) (λ f, Flow r = f)
  ∧ restricts (spec_hs_codes spec) (λ hs, HS_Code r ∈ hs).

#[export] Instance satisfies_dec spec r : Decision (satisfies spec r).
Proof. unfold satisfies. apply _. Defined.

Definition spec_filter (table : DataFrame) (spec : FilterSpec) : DataFrame :=
  filter (satisfies spec) table.

(** The sentinel ["All"] read as an unset field. *)
Definition unless_All (s : string) : option string :=
  if decide (s = "All") then None else Some s.

Definition to_spec (year : Z) (quarter month flow : string)
    (hs_codes : list string) : FilterSpec :=
  {| spec_year := year;
     spec_quarter := unless_All quarter;
     spec_month_name := unless_All month;
     spec_flow := unless_All flow;
     spec_hs_codes := if decide ("All" ∈ hs_codes) then None else Some hs_codes |}.

(** *** Selections of the control panel *)

Record Selection : Type := {
  selected_year : Z;
  selected_quarter : string;
  selected_month : string;
  selected_flow : string;
  selected_hs : list string
}.

Definition filtered_df (df : DataFrame) (sel : Selection) : DataFrame :=
  filter_data df (selected_year sel) (selected_quarter sel) (selected_month sel)
    (selected_flow sel) (selected_hs sel).

(** *** Key trade indicators *)

(** [d['Trade_Value_USD'].sum()] *)
Definition total (d : DataFrame) : Q := sumQ (Trade_Value_USD <$> d).
Arguments total : simpl never.

Definition total_trade (df : DataFrame) (sel : Selection) : Q :=
  total (filtered_df df sel).

Definition total_exports (df : DataFrame) (sel : Selection) : Q :=
  total (filter (λ r, Flow r = "Export") (filtered_df df sel)).

Definition total_imports (df : DataFrame) (sel : Selection) : Q :=
  total (filter (λ r, Flow r = "Import") (filtered_df df sel)).

Definition total_reexports (df : DataFrame) (sel : Selection) : Q :=
  total (filter (λ r, Flow r = "Re-export") (filtered_df df sel)).

Definition trade_balance (df : DataFrame) (sel : Selection) : Q :=
  (total_exports df sel - total_imports df sel)%Q.

Definition prev_year (sel : Selection) : Z := (selected_year sel - 1)%Z.

Definition prev_filtered (df : DataFrame) (sel : Selection) : DataFrame :=
  filter_data df (prev_year sel) (selected_quarter sel) (selected_month sel)
    (selected_flow sel) (selected_hs sel).

Definition prev_total (df : DataFrame) (sel : Selection) : Q :=
  total (prev_filtered df sel).

(** Year-over-year growth. *)
Definition growth_rate (df : DataFrame) (sel : Selection) : float64 :=
  if decide (prev_year sel ∈ Year <$> df) then
    if Qlt_le_dec 0 (prev_total df sel) then
      fmul (truediv (total_trade df sel - prev_total df sel) (prev_total df sel)) 100
    else Fin 0
  else Fin 0.

(** The "% of total" figures of the Exports, Imports and Re-exports cards:
    [total_exports/total_trade*100] and its two siblings. *)
Definition exports_percent_of_total (df : DataFrame) (sel : Selection) : float64 :=
  fmul (truediv (total_exports df sel) (total_trade df sel)) 100.

Definition imports_percent_of_total (df : DataFrame) (sel : Selection) : float64 :=
  fmul (truediv (total_imports df sel) (total_trade df sel)) 100.

Definition reexports_percent_of_total (df : DataFrame) (sel : Selection) : float64 :=
  fmul (truediv (total_reexports df sel) (total_trade df sel)) 100.

(** Regional concentration. *)
Definition eac_trade (df : DataFrame) (sel : Selection) : Q :=
  total (filter (λ r, Regional_Block r = "EAC") (filtered_df df sel)).

Definition eac_share (df : DataFrame) (sel : Selection) : float64 :=
  if Qlt_le_dec 0 (total_trade df sel) then
    fmul (truediv (eac_trade df sel) (total_trade df sel)) 100
  else Fin 0.

(** *** Group by and sum *)

(** [d.groupby(key)['Trade_Value_USD'].sum()]: one running sum per group
    key met in the rows. *)
Definition accumulate (key : Row → string) (acc : gmap string Q) (r : Row)
    : gmap string Q :=
  <[key r := (default 0 (acc !! key r) + Trade_Value_USD r)%Q]> acc.

Definition groupby_sum (key : Row → string) (d : DataFrame) : gmap string Q :=
  foldl (accumulate key) ∅ d.

(** The resulting Series lists the groups by ascending key. *)
Definition key_leb (x y : string * Q) : bool := String.leb x.1 y.1.

Definition to_series (m : gmap string Q) : list (string * Q) :=
  stable_sort key_leb (map_to_list m).

Definition groupby (key : Row → string) (d : DataFrame) : list (string * Q) :=
  to_series (groupby_sum key d).

(** [s.sort_values(ascending=False)]; groups of equal value are kept in
    their order of appearance, as [nlargest] documents for [keep='first']. *)
Definition value_geb (x y : string * Q) : bool := Qle_bool y.2 x.2.

Definition sort_values_descending (s : list (string * Q)) : list (string * Q) :=
  stable_sort value_geb s.

Definition nlargest (n : nat) (s : list (string * Q)) : list (string * Q) :=
  take n (sort_values_descending s).

Definition continent_data (df : DataFrame) (sel : Selection) : list (string * Q) :=
  sort_values_descending (groupby Partner_Continent (filtered_df df sel)).

(** *** Top partners *)

(** A row of [top_exports]: the group key ([Partner_Country]), its summed
    [Trade_Value_USD], and the added columns [Rank] and [Share_%]. *)
Record Ranked : Type := {
  Group : string;
  Value : Q;
  Rank : nat;
  Share : float64
}.

(** [(value / total * 100).round(2)] *)
Definition share_percent (value total : Q) : float64 :=
  fround (fmul (truediv value total) 100) 2.

(** [top['Rank'] = range(1, len(top) + 1)], then [top['Share_%']] from the
    values of [top] and their sum [top['Trade_Value_USD'].sum()]. *)
Definition ranked (top : list (string * Q)) : list Ranked :=
  zip_with
    (λ kv rank,
       {| Group := kv.1; Value := kv.2; Rank := rank;
          Share := share_percent kv.2 (sumQ top.*2) |})
    top (seq 1 (length top)).

Definition top_n (n : nat) (aggregated : list (string * Q)) : list Ranked :=
  ranked (nlargest n aggregated).

Definition export_data (df : DataFrame) (sel : Selection) : list (string * Q) :=
  groupby Partner_Country (filter (λ r, Flow r = "Export") (filtered_df df sel)).

Definition top_exports (df : DataFrame) (sel : Selection) : list Ranked :=
  top_n 20 (export_data df sel).

Definition import_data (df : DataFrame) (sel : Selection) : list (string * Q) :=
  groupby Partner_Country (filter (λ r, Flow r = "Import") (filtered_df df sel)).

Definition top_imports (df : DataFrame) (sel : Selection) : list Ranked :=
  top_n 20 (import_data df sel).

(** *** Loading the data *)

Inductive exn : Type :=
| FileNotFoundError
| PermissionError
| ParserError.

(** What the working directory holds under a file name. *)
Inductive file : Type :=
| Csv (rows : DataFrame)
| Garbled
| Locked.

Definition read_csv (fs : gmap string file) (path : string) : exn + DataFrame :=
  match fs !! path with
  | None => inl FileNotFoundError
  | Some Locked => inl PermissionError
  | Some Garbled => inl ParserError
  | Some (Csv rows) => inr rows
  end.

Inductive ui_event : Type :=
| st_error (msg : string).

(** How a run of the script ends: with a value, halted by [st.stop()] with
    what is on the page, or by an uncaught exception. *)
Inductive outcome (A : Type) : Type :=
| Returned (a : A)
| Stopped (page : list ui_event)
| Raised (e : exn).
Arguments Returned {A} a.
Arguments Stopped {A} page.
Arguments Raised {A} e.

Definition load_data (fs : gmap string file) : outcome DataFrame :=
  match read_csv fs "rwanda_trade_data.csv" with
  | inr df => Returned df
  | inl FileNotFoundError =>
      Stopped [st_error "⚠️ Data file not found! Please run create_rwanda_trade_data.py first"]
  | inl e => Raised e
  end.

(** The figures of the KPI section, computed once the table is loaded. *)
Record Indicators : Type := {
  kpi_total_trade : Q;
  kpi_growth_rate : float64;
  kpi_exports_percent : float64;
  kpi_imports_percent : float64;
  kpi_reexports_percent : float64;
  kpi_eac_share : float64
}.

Definition indicators (df : DataFrame) (sel : Selection) : Indicators :=
  {| kpi_total_trade := total_trade df sel;
     kpi_growth_rate := growth_rate df sel;
     kpi_exports_percent := exports_percent_of_total df sel;
     kpi_imports_percent := imports_percent_of_total df sel;
     kpi_reexports_percent := reexports_percent_of_total df sel;
     kpi_eac_share := eac_share df sel |}.

Definition dashboard (fs : gmap string file) (sel : Selection) : outcome Indicators :=
  match load_data fs with
  | Returned df => Returned (indicators df sel)
  | Stopped page => Stopped page
  | Raised e => Raised e
  end.

End Dashboard.

(** ** The data generator *)

Module Generator.

(** One entry of [data]. *)
Record Entry : Type := {
  Year : Z;
  Month : Z;
  Quarter : string;
  Flow : string;
  Partner_Country : string;
  Partner_Continent : string;
  Regional_Block : string;
  HS_Code : string;
  HS_Description : string;
  Trade_Value_USD : Q;
  Quantity_KG : float64
}.

(** A dict literal: its items are inserted in the order they are written, so
    a key written twice keeps the value written last. *)
Definition dict_literal {K V} `{Countable K} (items : list (K * V)) : gmap K V :=
  foldl (λ d kv, <[kv.1 := kv.2]> d) ∅ items.

Definition years : list Z := [2021; 2022; 2023; 2024]%Z.

Definition months : list Z := seqZ 1 12.

Definition quarters : gmap Z string :=
  dict_literal
    [(1, "Q1"); (2, "Q1"); (3, "Q1"); (4, "Q2"); (5, "Q2"); (6, "Q2");
     (7, "Q3"); (8, "Q3"); (9, "Q3"); (10, "Q4"); (11, "Q4"); (12, "Q4")]%Z.

Definition flows : list string := ["Export"; "Import"; "Re-export"].

Definition export_partners : list string :=
  ["Uganda"; "Kenya"; "Tanzania"; "Burundi"; "DRC";
   "United States"; "United Kingdom"; "Germany"; "Belgium"; "Netherlands";
   "China"; "India"; "UAE"; "South Africa"; "Switzerland";
   "France"; "Italy"; "Canada"; "Japan"; "Singapore";
   "Egypt"; "Ghana"; "Nigeria"; "Zambia"; "Zimbabwe"].

Definition import_partners : list string :=
  ["China"; "India"; "UAE"; "Kenya"; "Uganda";
   "Tanzania"; "United States"; "South Africa"; "Germany"; "Japan";
   "United Kingdom"; "Belgium"; "France"; "Netherlands"; "Italy";
   "Saudi Arabia"; "Turkey"; "Thailand"; "Indonesia"; "Brazil";
   "Egypt"; "Morocco"; "Nigeria"; "Zambia"; "Burundi"].

Definition continent_map : gmap string string :=
  dict_literal
    [("Uganda", "Africa"); ("Kenya", "Africa"); ("Tanzania", "Africa");
     ("Burundi", "Africa"); ("DRC", "Africa");
     ("South Africa", "Africa"); ("Egypt", "Africa"); ("Ghana", "Africa");
     ("Nigeria", "Africa");
     ("Zambia", "Africa"); ("Zimbabwe", "Africa"); ("Morocco", "Africa");
     ("United States", "North America"); ("Canada", "North America");
     ("China", "Asia"); ("India", "Asia"); ("UAE", "Asia"); ("Japan", "Asia");
     ("Singapore", "Asia");
     ("Saudi Arabia", "Asia"); ("Turkey", "Asia"); ("Thailand", "Asia");
     ("Indonesia", "Asia");
     ("United Kingdom", "Europe"); ("Germany", "Europe"); ("Belgium", "Europe");
     ("Netherlands", "Europe");
     ("Switzerland", "Europe"); ("France", "Europe"); ("Italy", "Europe");
     ("Brazil", "South America")].

Definition regional_block_map : gmap string string :=
  dict_literal
    [("Uganda", "EAC"); ("Kenya", "EAC"); ("Tanzania", "EAC"); ("Burundi", "EAC");
     ("DRC", "COMESA"); ("Egypt", "COMESA"); ("Zambia", "COMESA");
     ("Zimbabwe", "COMESA");
     ("South Africa", "SADC"); ("Zambia", "SADC"); ("Zimbabwe", "SADC");
     ("Tanzania", "SADC");
     ("Nigeria", "ECOWAS"); ("Ghana", "ECOWAS");
     ("China", "Other"); ("India", "Other"); ("UAE", "Other");
     ("United States", "Other");
     ("United Kingdom", "Other"); ("Germany", "EU"); ("Belgium", "EU");
     ("Netherlands", "EU");
     ("France", "EU"); ("Italy", "EU"); ("Japan", "Other"); ("Singapore", "Other");
     ("Saudi Arabia", "Other"); ("Turkey", "Other"); ("Thailand", "Other");
     ("Indonesia", "Other"); ("Brazil", "Other"); ("Canada", "Other");
     ("Switzerland", "Other");
     ("Morocco", "Other")].

Definition hs_products : gmap string (list (string * string)) :=
  dict_literal
    [("Export",
      [("0901", "Coffee (not roasted)");
       ("0902", "Tea");
       ("2608", "Tin ores and concentrates");
       ("2613", "Tantalum ores and concentrates");
       ("7102", "Diamonds");
       ("0709", "Vegetables (fresh/chilled)");
       ("0804", "Dates, figs, pineapples, avocados");
       ("6109", "T-shirts, singlets (knitted)");
       ("6110", "Jerseys, pullovers (knitted)");
       ("2710", "Petroleum oils (refined)");
       ("8517", "Telephones/mobile phones");
       ("2523", "Cement");
       ("7326", "Iron/steel articles");
       ("8471", "Data processing equipment");
       ("0713", "Dried legumes")]);
     ("Import",
      [("2710", "Petroleum oils");
       ("8703", "Motor cars");
       ("8704", "Motor vehicles (goods transport)");
       ("1001", "Wheat");
       ("1006", "Rice");
       ("8517", "Telephones/mobile phones");
       ("8471", "Computers/data processing");
       ("3004", "Medicaments (packaged)");
       ("8528", "Television receivers");
       ("6203", "Suits, ensembles (men)");
       ("6204", "Suits, ensembles (women)");
       ("2523", "Cement");
       ("7213", "Iron/steel bars");
       ("8415", "Air conditioning machines");
       ("8716", "Trailers and semi-trailers")])].

(** What the script uses of numpy: the generator state set by
    [np.random.seed], the draws [randint], [choice] (without replacement)
    and [uniform], each returning the next generator state, and [np.sin]
    and [np.pi]. *)
Record Numpy : Type := {
  rng : Type;
  seed : Z → rng;
  randint : Z → Z → rng → Z * rng;
  choice : nat → nat → rng → list nat * rng;
  uniform : Q → Q → rng → Q * rng;
  sin : Q → Q;
  pi : Q
}.

(** The ranges numpy documents for them. *)
Record NumpySpec (np : Numpy) : Prop := {
  randint_range : ∀ low high r,
    (low < high)%Z → (low ≤ (randint np low high r).1 < high)%Z;
  choice_range : ∀ n k r,
    (k ≤ n)%nat → Forall (λ i, (i < n)%nat) (choice np n k r).1;
  uniform_range : ∀ low high r,
    (low <= high)%Q →
    (low <= (uniform np low high r).1)%Q ∧ ((uniform np low high r).1 <= high)%Q;
  sin_range : ∀ x, (- (1) <= sin np x)%Q ∧ (sin np x <= 1)%Q
}.

Section Script.
Context (np : Numpy).

(** The state of the script: the random generator and the list [data]. *)
Record state : Type := {
  rand : rng np;
  data : list Entry
}.

(** A step of the script: it fails ([None]) where Python raises
    ([KeyError], [IndexError], [ValueError]). *)
Definition M (A : Type) : Type := state → option (A * state).

#[export] Instance M_ret : MRet M := λ A a s, Some (a, s).

#[export] Instance M_bind : MBind M :=
  λ A B k m s, match m s with
               | Some (a, s') => k a s'
               | None => None
               end.

(** [d[k]] and [l[i]] *)
Definition item {A} (o : option A) : M A :=
  λ s, match o with
       | Some a => Some (a, s)
       | None => None
       end.

Definition np_random_randint (low high : Z) : M Z :=
  λ s, let '(x, r) := randint np low high (rand s) in
       Some (x, {| rand := r; data := data s |}).

Definition np_random_choice (n : nat) (size : Z) : M (list nat) :=
  λ s, if decide (0 ≤ size ≤ Z.of_nat n)%Z then
         let '(l, r) := choice np n (Z.to_nat size) (rand s) in
         Some (l, {| rand := r; data := data s |})
       else None.

Definition np_random_uniform (low high : Q) : M Q :=
  λ s, let '(x, r) := uniform np low high (rand s) in
       Some (x, {| rand := r; data := data s |}).

Definition data_append (e : Entry) : M unit :=
  λ s, Some ((), {| rand := rand s; data := data s ++ [e] |}).

Fixpoint for_each {A} (l : list A) (body : A → M unit) : M unit :=
  match l with
  | [] => mret ()
  | x :: l' => _ ← body x; for_each l' body
  end.

(** The body of the innermost loop: one entry for a product. *)
Definition product_entry (year month : Z) (quarter flow partner : string)
    (products : list (string * string)) (prod_idx : nat) : M unit :=
  '(hs_code, hs_desc) ← item (products !! prod_idx);
  base_value ← np_random_uniform 50000 5000000;
  '(value_multiplier, base_value) ←
    (if decide (flow = "Export") then mret (1.0%Q, base_value)
     else if decide (flow = "Import") then mret (1.3%Q, base_value)
     else base_value ← np_random_uniform 10000 500000; mret (0.3%Q, base_value));
  let year_factor := (1 + inject_Z (year - 2021) * 0.08)%Q in
  let seasonal_factor := (1 + 0.1 * sin np (inject_Z month * pi np / 6))%Q in
  let trade_value :=
    (base_value * value_multiplier * year_factor * seasonal_factor)%Q in
  price ← np_random_uniform 2 20;
  let quantity := truediv trade_value price in
  let continent := default "Other" (continent_map !! partner) in
  let regional_block := default "Other" (regional_block_map !! partner) in
  data_append
    {| Year := year; Month := month; Quarter := quarter; Flow := flow;
       Partner_Country := partner; Partner_Continent := continent;
       Regional_Block := regional_block; HS_Code := hs_code;
       HS_Description := hs_desc; Trade_Value_USD := round trade_value 2;
       Quantity_KG := fround quantity 2 |}.

Definition generate : M unit :=
  for_each years (λ year,
    for_each months (λ month,
      quarter ← item (quarters !! month);
      for_each flows (λ flow,
        '(partners, products) ←
          (if decide (flow = "Export") then
             products ← item (hs_products !! "Export");
             mret (export_partners, products)
           else
             products ← item (hs_products !! "Import");
             mret (import_partners, products));
        for_each (take 20 partners) (λ partner,
          num_products ← np_random_randint 3 6;
          selected_products ← np_random_choice (length products) num_products;
          for_each selected_products
            (product_entry year month quarter flow partner products))))).

(** The script, from [np.random.seed(42)] and [data = []] to the list the
    DataFrame is built from.  The DataFrame then gets the derived columns
    [Month_Name] and [Date] and is sorted; its rows are these entries. *)
Definition dataset : option (list Entry) :=
  match generate {| rand := seed np 42; data := [] |} with
  | Some (_, s) => Some (data s)
  | None => None
  end.

(** A step that runs to its end, keeps [Inv] on every entry of [data], and
    returns a value in [Post]. *)
Definition keeps {A} (Inv : Entry → Prop) (m : M A) (Post : A → Prop) : Prop :=
  ∀ s, Forall Inv (data s) →
    ∃ a s', m s = Some (a, s') ∧ Forall Inv (data s') ∧ Post a.

End Script.

Arguments rand {np} s.
Arguments data {np} s.

(** The quarter of a month, as the data model words it. *)
Definition quarter_of_month (month : Z) : string :=
  if decide (month ≤ 3)%Z then "Q1"
  else if decide (month ≤ 6)%Z then "Q2"
  else if decide (month ≤ 9)%Z then "Q3"
  else "Q4".

(** The partner list and the product catalog the script takes for a flow. *)
Definition partners_of (flow : string) : list string :=
  if decide (flow = "Export") then export_partners else import_partners.

Definition catalog_of (flow : string) : list (string * string) :=
  default [] (hs_products !! (if decide (flow = "Export") then "Export" else "Import")).

(** What holds of every generated entry. *)
Record generated (e : Entry) : Prop := {
  generated_year : Year e ∈ years;
  generated_month : (1 ≤ Month e ≤ 12)%Z;
  generated_quarter : quarters !! Month e = Some (Quarter e);
  generated_flow : Flow e ∈ flows;
  generated_value : (0 <= Trade_Value_USD e)%Q;
  generated_continent :
    Partner_Continent e = default "Other" (continent_map !! Partner_Country e);
  generated_block :
    Regional_Block e = default "Other" (regional_block_map !! Partner_Country e);
  generated_partner : Partner_Country e ∈ take 20 (partners_of (Flow e));
  generated_product : (HS_Code e, HS_Description e) ∈ catalog_of (Flow e)
}.

(** *** The entries a step appends *)

(** What [np.random.choice(n, size, replace=False)] adds to the ranges of
    [NumpySpec]: [size] indices, all different. *)
Record NumpyChoiceSpec (np : Numpy) : Prop := {
  choice_length : ∀ n k r, (k ≤ n)%nat → length (choice np n k r).1 = k;
  choice_NoDup : ∀ n k r, (k ≤ n)%nat → NoDup (choice np n k r).1
}.

(** What identifies an observation. *)
Definition observation (e : Entry) : Z * Z * string * string * string :=
  (Year e, Month e, Flow e, Partner_Country e, HS_Code e).

Section Appended.
Context (np : Numpy).

(** A step that runs to its end and appends to [data] a list of entries
    that, with the value returned, is in [Post]. *)
Definition extends {A} (m : M np A) (Post : A → list Entry → Prop) : Prop :=
  ∀ s, ∃ a s' new,
    m s = Some (a, s') ∧ data s' = (data s ++ new)%list ∧ Post a new.

(** The entry that the innermost loop builds for a product: its fields, for
    some base value and unit price drawn in their ranges. *)
Definition built (year month : Z) (quarter flow partner hs_code hs_desc : string)
    (e : Entry) : Prop :=
  ∃ base_value value_multiplier price,
    (flow = "Export" ∧ value_multiplier = 1.0%Q
       ∧ (50000 <= base_value)%Q ∧ (base_value <= 5000000)%Q
     ∨ flow = "Import" ∧ value_multiplier = 1.3%Q
       ∧ (50000 <= base_value)%Q ∧ (base_value <= 5000000)%Q
     ∨ flow ≠ "Export" ∧ flow ≠ "Import" ∧ value_multiplier = 0.3%Q
       ∧ (10000 <= base_value)%Q ∧ (base_value <= 500000)%Q)
    ∧ (2 <= price)%Q ∧ (price <= 20)%Q
    ∧ e = {| Year := year; Month := month; Quarter := quarter; Flow := flow;
             Partner_Country := partner;
             Partner_Continent := default "Other" (continent_map !! partner);
             Regional_Block := default "Other" (regional_block_map !! partner);
             HS_Code := hs_code; HS_Description := hs_desc;
             Trade_Value_USD :=
               round (base_value * value_multiplier
                      * (1 + inject_Z (year - 2021) * 0.08)
                      * (1 + 0.1 * sin np (inject_Z month * pi np / 6)))%Q 2;
             Quantity_KG :=
               fround (truediv
                         (base_value * value_multiplier
                          * (1 + inject_Z (year - 2021) * 0.08)
                          * (1 + 0.1 * sin np (inject_Z month * pi np / 6)))%Q
                         price) 2 |}.

(** An entry of the loops: built for a year, a month, a flow, one of the
    first twenty partners of the flow and a product of its catalog. *)
Definition made (e : Entry) : Prop :=
  ∃ year month flow partner hs_code hs_desc,
    year ∈ years ∧ month ∈ months ∧ flow ∈ flows
    ∧ partner ∈ take 20 (partners_of flow)
    ∧ (hs_code, hs_desc) ∈ catalog_of flow
    ∧ built year month (quarter_of_month month) flow partner hs_code hs_desc e.

(** The entries appended by the iterations of a loop: between [lo] and
    [hi] of them, no two for the same observation, each one [made] and in
    [fixed], which holds what the enclosing loops have fixed. *)
Definition chunk (lo hi : nat) (fixed : Entry → Prop) (new : list Entry) : Prop :=
  (lo ≤ length new ≤ hi)%nat
  ∧ NoDup (observation <$> new)
  ∧ Forall (λ e, fixed e ∧ made e) new.

End Appended.

(** *** The DataFrame *)

Definition month_names : gmap Z string :=
  dict_literal
    [(1, "January"); (2, "February"); (3, "March"); (4, "April"); (5, "May");
     (6, "June"); (7, "July"); (8, "August"); (9, "September");
     (10, "October"); (11, "November"); (12, "December")]%Z.

(** A row of [df]: the entry and the two derived columns.  [Month_Name] is
    [None] where [map] leaves NaN, for a month that is no key. *)
Record FrameRow : Type := {
  entry : Entry;
  Month_Name : option string;
  Date : Z * Z * Z
}.

(** [pd.to_datetime(df[['Year', 'Month']].assign(Day=1))] on a row: the
    first day of the month; [None] is its [ValueError], for a month that is
    none. *)
Definition to_datetime (year month : Z) : option (Z * Z * Z) :=
  if decide (1 ≤ month ≤ 12)%Z then Some (year, month, 1%Z) else None.

Definition add_columns (e : Entry) : option FrameRow :=
  date ← to_datetime (Year e) (Month e);
  Some {| entry := e; Month_Name := month_names !! Month e; Date := date |}.

Definition lexicographic (c1 c2 : comparison) : comparison :=
  match c1 with
  | Eq => c2
  | _ => c1
  end.

Definition date_compare (d1 d2 : Z * Z * Z) : comparison :=
  lexicographic (d1.1.1 ?= d2.1.1)%Z
    (lexicographic (d1.1.2 ?= d2.1.2)%Z (d1.2 ?= d2.2)%Z).

(** The order of [sort_values(['Date', 'Flow', 'Partner_Country', 'HS_Code'])]. *)
Definition row_leb (r1 r2 : FrameRow) : bool :=
  match lexicographic (date_compare (Date r1) (Date r2))
          (lexicographic (String.compare (Flow (entry r1)) (Flow (entry r2)))
             (lexicographic
                (String.compare (Partner_Country (entry r1))
                   (Partner_Country (entry r2)))
                (String.compare (HS_Code (entry r1)) (HS_Code (entry r2)))))
  with
  | Gt => false
  | _ => true
  end.

(** [df]: the entries with their derived columns, sorted. *)
Definition dataframe (data : list Entry) : option (list FrameRow) :=
  rows ← mapM add_columns data;
  Some (stable_sort row_leb rows).

End Generator.

(** ** The dashboard page: control panel, charts and insights *)

Module Page.
Import Dashboard.

(** [s.unique()]: the values in their order of first appearance. *)
Definition unique {A} `{EqDecision A} (l : list A) : list A :=
  foldl (λ seen x, if decide (x ∈ seen) then seen else (seen ++ [x])%list) [] l.

(** [st.sidebar.selectbox(label, options, index)]: the option at [index],
    and nothing when there is none. *)
Definition selectbox {A} (options : list A) (index : nat) : option A :=
  options !! index.

(** [sorted(df['Year'].unique(), reverse=True)] *)
Definition years (df : DataFrame) : list Z :=
  stable_sort Z.geb (unique (Year <$> df)).

Definition quarters : list string := ["All"; "Q1"; "Q2"; "Q3"; "Q4"].

Definition quarter_months : gmap string (list string) :=
  Generator.dict_literal
    [("Q1", ["January"; "February"; "March"]);
     ("Q2", ["April"; "May"; "June"]);
     ("Q3", ["July"; "August"; "September"]);
     ("Q4", ["October"; "November"; "December"])].

(** The month options, dependent on the quarter; [None] is the [KeyError] of
    [quarter_months[selected_quarter]]. *)
Definition available_months (df : DataFrame) (selected_quarter : string)
    : option (list string) :=
  if decide (selected_quarter = "All") then
    Some ("All" :: unique (Month_Name <$> df))
  else
    match quarter_months !! selected_quarter with
    | Some months => Some ("All" :: months)
    | None => None
    end.

Definition flows : list string := ["All"; "Export"; "Import"; "Re-export"].

(** [['All'] + sorted(df['HS_Code'].unique().tolist())] *)
Definition hs_codes (df : DataFrame) : list string :=
  "All" :: stable_sort String.leb (unique (HS_Code <$> df)).

(** The selection of a fresh page: every selectbox at [index=0], the
    multiselect at its default [['All']]. *)
Definition default_selection (df : DataFrame) : option Selection :=
  match selectbox (years df) 0, selectbox quarters 0 with
  | Some year, Some quarter =>
      match available_months df quarter with
      | Some months =>
          match selectbox months 0, selectbox flows 0 with
          | Some month, Some flow =>
              Some {| selected_year := year; selected_quarter := quarter;
                      selected_month := month; selected_flow := flow;
                      selected_hs := ["All"] |}
          | _, _ => None
          end
      | None => None
      end
  | _, _ => None
  end.

(** The label of the trade balance card. *)
Definition balance_text (df : DataFrame) (sel : Selection) : string :=
  if Qlt_le_dec 0 (trade_balance df sel) then "Surplus" else "Deficit".

(** [s.sort_values(ascending=True)] *)
Definition value_leb (x y : string * Q) : bool := Qle_bool x.2 y.2.

Definition sort_values_ascending (s : list (string * Q)) : list (string * Q) :=
  stable_sort value_leb s.

Definition regional_data (df : DataFrame) (sel : Selection) : list (string * Q) :=
  sort_values_ascending (groupby Regional_Block (filtered_df df sel)).

Definition reexport_data (df : DataFrame) (sel : Selection) : list (string * Q) :=
  groupby Partner_Country (filter (λ r, Flow r = "Re-export") (filtered_df df sel)).

Definition top_reexports (df : DataFrame) (sel : Selection) : list Ranked :=
  top_n 20 (reexport_data df sel).

(** The "Top Export Destination" insight: the first row of [top_exports],
    shown only [if len(top_exports) > 0]. *)
Definition top_export_insight (df : DataFrame) (sel : Selection)
    : option (string * Q * float64) :=
  match top_exports df sel with
  | [] => None
  | t :: _ => Some (Group t, Value t, Share t)
  end.

End Page.

(** ** Concrete tables and selections *)

Module Examples.
Import Dashboard.

Definition row (year : Z) (flow partner block : string) (value : Q) : Row :=
  {| Year := year; Month := 1; Quarter := "Q1"; Flow := flow;
     Partner_Country := partner; Partner_Continent := "Africa";
     Regional_Block := block; HS_Code := "0901";
     HS_Description := "Coffee (not roasted)"; Trade_Value_USD := value;
     Quantity_KG := 1; Month_Name := "January"; Date := (year, 1, 1)%Z |}.

(** The selection the control panel starts with, for a year. *)
Definition all_of (year : Z) : Selection :=
  {| selected_year := year; selected_quarter := "All"; selected_month := "All";
     selected_flow := "All"; selected_hs := ["All"] |}.

Definition exports_of (year : Z) : Selection :=
  {| selected_year := year; selected_quarter := "All"; selected_month := "All";
     selected_flow := "Export"; selected_hs := ["All"] |}.

(** The HS code multiselect emptied by the user. *)
Definition no_hs_code (year : Z) : Selection :=
  {| selected_year := year; selected_quarter := "All"; selected_month := "All";
     selected_flow := "All"; selected_hs := [] |}.

(** One export row to Uganda in 2023 and one in 2024. *)
Definition uganda_table : DataFrame :=
  [row 2023 "Export" "Uganda" "EAC" 100; row 2024 "Export" "Uganda" "EAC" 150].

(** Exports of 100 to each of twenty-one partners in 2024. *)
Definition partners21 : list string :=
  ["Uganda"; "Kenya"; "Tanzania"; "Burundi"; "DRC"; "United States";
   "United Kingdom"; "Germany"; "Belgium"; "Netherlands"; "China"; "India";
   "UAE"; "South Africa"; "Switzerland"; "France"; "Italy"; "Canada"; "Japan";
   "Singapore"; "Egypt"].

Definition exports21 : DataFrame :=
  (λ partner, row 2024 "Export" partner "Other" 100) <$> partners21.

(** A table with a refund booked as a negative value in 2023. *)
Definition refund_table : DataFrame :=
  [row 2023 "Export" "Uganda" "EAC" (-100); row 2024 "Export" "Uganda" "EAC" 150].

(** A linear congruential generator standing in for numpy's, and a
    polynomial clamped to [-1, 1] standing in for [np.sin]. *)
Definition lcg_next (r : Z) : Z := ((r * 1103515245 + 12345) mod 2147483648)%Z.

Definition lcg : Generator.Numpy :=
  {| Generator.rng := Z;
     Generator.seed := λ z, z;
     Generator.randint := λ low high r,
       ((low + r mod (high - low))%Z, lcg_next r);
     Generator.choice := λ n k r,
       ((λ i, ((i + Z.to_nat (r mod 1000)) mod n)%nat) <$> seq 0 k, lcg_next r);
     Generator.uniform := λ low high r,
       ((low + (high - low) * (inject_Z (r mod 1000) / 1000))%Q, lcg_next r);
     Generator.sin := λ x,
       let y := (x - x * x * x / 6)%Q in
       if Qle_bool y (- (1)) then (- (1))%Q else if Qle_bool 1 y then 1%Q else y;
     Generator.pi := 3.14%Q |}.

End Examples.

(** * Properties *)

(** ** [filter_data] *)

Section FilterData.
Import Dashboard.

Lemma unless_All_restricts (s : string) (P : string → Prop) :
  restricts (unless_All s) P ↔ (s ≠ "All" → P s).
Proof.
  unfold unless_All. destruct (decide (s = "All")) as [->|Hne]; simpl.
  - split; [intros _ Hc; by destruct Hc | done].
  - split; [by intros HP _ | intros HP; by apply HP].
Qed.

Lemma filter_when {A} (c : Prop) `{Decision c} (P : A → Prop)
    `{∀ x, Decision (P x)} (l : list A) :
  (if decide c then filter P l else l) = filter (λ x, c → P x) l.
Proof.
  destruct (decide c) as [Hc|Hc].
  - apply list_filter_iff. intros x. split; [by intros HP _ | intros HP; by apply HP].
  - induction l as [|x l IH]; [done|].
    rewrite filter_cons_True; [by f_equal | by intros Hc'].
Qed.

Lemma filter_data_selected df year quarter month flow hs_codes :
  filter_data df year quarter month flow hs_codes
  = filter (selected year quarter month flow hs_codes) df.
Proof.
  unfold filter_data. cbv zeta. rewrite !filter_when, !list_filter_filter.
  apply list_filter_iff. intros r. unfold selected. tauto.
Qed.

Lemma selected_satisfies year quarter month flow hs_codes r :
  selected year quarter month flow hs_codes r
  ↔ satisfies (to_spec year quarter month flow hs_codes) r.
Proof.
  unfold selected, satisfies, to_spec; simpl.
  rewrite !unless_All_restricts.
  destruct (decide ("All" ∈ hs_codes)) as [Hin|Hin]; simpl; tauto.
Qed.

(** C1: [filter_data] returns exactly the rows of the table that satisfy the
    filter specification in which every field equal to the sentinel ["All"]
    (and an [hs_codes] selection containing ["All"]) is unset: a row is kept
    iff its [Year] is the selected year and it matches every set field; the
    kept rows are in the relative order of the table. *)
Theorem filter_data_exact (df : DataFrame) (year : Z) (quarter month flow : string)
    (hs_codes : list string) :
  filter_data df year quarter month flow hs_codes
    = spec_filter df (to_spec year quarter month flow hs_codes)
  ∧ (∀ r, r ∈ filter_data df year quarter month flow hs_codes
          ↔ r ∈ df ∧ Year r = year
            ∧ (quarter ≠ "All" → Quarter r = quarter)
            ∧ (month ≠ "All" → Month_Name r = month)
            ∧ (flow ≠ "All" → Flow r = flow)
            ∧ ("All" ∉ hs_codes → HS_Code r ∈ hs_codes))
  ∧ filter_data df year quarter month flow hs_codes `sublist_of` df.
Proof.
  rewrite filter_data_selected. split; [|split].
  - unfold spec_filter. apply list_filter_iff. intros r. apply selected_satisfies.
  - intros r. rewrite list_elem_of_filter. unfold selected. tauto.
  - apply sublist_filter.
Qed.

End FilterData.

(** ** Sums and sorting *)

Section Sums.
#[local] Open Scope Q_scope.

Lemma sumQ_cons x l : sumQ (x :: l) = x + sumQ l.
Proof. reflexivity. Qed.

Lemma sumQ_app l1 l2 : sumQ (l1 ++ l2) == sumQ l1 + sumQ l2.
Proof.
  induction l1 as [|x l1 IH]; simpl.
  - change (sumQ l2 == 0 + sumQ l2). ring.
  - rewrite !sumQ_cons, IH. ring.
Qed.

Lemma sumQ_Permutation l1 l2 : l1 ≡ₚ l2 → sumQ l1 == sumQ l2.
Proof.
  induction 1 as [|x l1 l2 _ IH|x y l|l1 l2 l3 _ IH1 _ IH2].
  - reflexivity.
  - rewrite !sumQ_cons, IH. reflexivity.
  - rewrite !sumQ_cons. ring.
  - by rewrite IH1.
Qed.

Lemma sumQ_nonneg l : Forall (λ x, 0 <= x) l → 0 <= sumQ l.
Proof.
  induction 1 as [|x l Hx _ IH]; [apply Qle_refl|].
  rewrite sumQ_cons. lra.
Qed.

End Sums.

Section StableSort.
Context {A : Type} (le : A → A → bool).

Lemma insert_sorted_Permutation x l : insert_sorted le x l ≡ₚ x :: l.
Proof.
  induction l as [|y l IH]; simpl; [done|].
  destruct (le x y); [done|].
  rewrite IH. apply Permutation_swap.
Qed.

Lemma stable_sort_Permutation l : stable_sort le l ≡ₚ l.
Proof.
  induction l as [|x l IH]; simpl; [done|].
  unfold stable_sort in *; simpl.
  by rewrite insert_sorted_Permutation, IH.
Qed.

Lemma stable_sort_length l : length (stable_sort le l) = length l.
Proof. by rewrite (Permutation_length (stable_sort_Permutation l)). Qed.

(** With a total and transitive comparison the result is sorted. *)
Hypothesis le_total : ∀ x y, le x y = true ∨ le y x = true.
Hypothesis le_trans : ∀ x y z, le x y = true → le y z = true → le x z = true.

Lemma insert_sorted_StronglySorted x l :
  StronglySorted (λ a b, le a b = true) l →
  StronglySorted (λ a b, le a b = true) (insert_sorted le x l).
Proof.
  induction 1 as [|y l Hs IH Hy]; simpl.
  - repeat constructor.
  - destruct (le x y) eqn:Hxy.
    + constructor; [by constructor|].
      constructor; [done|].
      eapply Forall_impl; [exact Hy|]. intros z Hz. by eapply le_trans.
    + constructor; [done|].
      rewrite (insert_sorted_Permutation x l). constructor; [|done].
      destruct (le_total x y) as [Hc|Hc]; [congruence|done].
Qed.

Lemma stable_sort_StronglySorted l :
  StronglySorted (λ a b, le a b = true) (stable_sort le l).
Proof.
  induction l as [|x l IH]; [constructor|].
  by apply insert_sorted_StronglySorted.
Qed.

End StableSort.

(** Equal elements keep their order of appearance. *)
Lemma insert_sorted_stable {A} (le : A → A → bool) (P : A → Prop)
    `{∀ x, Decision (P x)} (x : A) (l : list A) :
  (∀ a b, P a → P b → le a b = true) →
  filter P (insert_sorted le x l) = filter P (x :: l).
Proof.
  intros HP. induction l as [|y l IH]; simpl; [done|].
  destruct (le x y) eqn:Hxy; [done|].
  rewrite filter_cons, IH, !filter_cons.
  destruct (decide (P y)) as [Hy|Hy]; [|done].
  destruct (decide (P x)) as [Hx|Hx]; [|done].
  rewrite HP in Hxy by done. discriminate.
Qed.

Lemma stable_sort_stable {A} (le : A → A → bool) (P : A → Prop)
    `{∀ x, Decision (P x)} (l : list A) :
  (∀ a b, P a → P b → le a b = true) →
  filter P (stable_sort le l) = filter P l.
Proof.
  intros HP. induction l as [|x l IH]; [done|].
  unfold stable_sort in *; simpl.
  rewrite insert_sorted_stable by done.
  by rewrite !filter_cons, IH.
Qed.

(** ** Group by and sum *)

Section Aggregation.
Import Dashboard.
#[local] Open Scope Q_scope.
Context (key : Row → string).

Lemma total_cons r d : total (r :: d) = Trade_Value_USD r + total d.
Proof. reflexivity. Qed.

Lemma total_nil : total [] = 0.
Proof. reflexivity. Qed.

Lemma total_Permutation d1 d2 : d1 ≡ₚ d2 → total d1 == total d2.
Proof. intros Hp. unfold total. apply sumQ_Permutation. by rewrite Hp. Qed.

Lemma accumulate_lookup (acc : gmap string Q) r k :
  accumulate key acc r !! k
  = if decide (key r = k) then Some (default 0 (acc !! k) + Trade_Value_USD r)
    else acc !! k.
Proof.
  unfold accumulate. rewrite lookup_insert.
  destruct (decide (key r = k)) as [->|]; done.
Qed.

Lemma map_values_insert_sum (m : gmap string Q) k v :
  sumQ (map_to_list (<[k:=v]> m)).*2
  == v + sumQ (map_to_list (delete k m)).*2.
Proof.
  rewrite <- insert_delete_eq, <- sumQ_cons.
  apply sumQ_Permutation.
  by rewrite map_to_list_insert by apply lookup_delete_eq.
Qed.

Lemma map_values_sum_lookup (m : gmap string Q) k :
  sumQ (map_to_list m).*2
  == default 0 (m !! k) + sumQ (map_to_list (delete k m)).*2.
Proof.
  destruct (m !! k) as [w|] eqn:Hk; simpl.
  - rewrite <- (insert_delete_id m k w) at 1 by done.
    rewrite <- sumQ_cons. apply sumQ_Permutation.
    by rewrite map_to_list_insert by apply lookup_delete_eq.
  - rewrite delete_id by done. ring.
Qed.

Lemma accumulate_sum (acc : gmap string Q) r :
  sumQ (map_to_list (accumulate key acc r)).*2
  == sumQ (map_to_list acc).*2 + Trade_Value_USD r.
Proof.
  unfold accumulate.
  rewrite map_values_insert_sum, (map_values_sum_lookup acc (key r)). ring.
Qed.

Lemma foldl_accumulate_sum d (acc : gmap string Q) :
  sumQ (map_to_list (foldl (accumulate key) acc d)).*2
  == sumQ (map_to_list acc).*2 + total d.
Proof.
  revert acc. induction d as [|r d IH]; intros acc; simpl.
  - rewrite total_nil. ring.
  - rewrite IH, accumulate_sum, total_cons. ring.
Qed.

Lemma foldl_accumulate_is_Some d (acc : gmap string Q) k :
  is_Some (foldl (accumulate key) acc d !! k)
  ↔ is_Some (acc !! k) ∨ ∃ r, r ∈ d ∧ key r = k.
Proof.
  revert acc. induction d as [|r d IH]; intros acc; simpl.
  - split; [by left|]. intros [?|(r & Hr & _)]; [done|]. by apply elem_of_nil in Hr.
  - rewrite IH, accumulate_lookup. split.
    + intros [Hs|(r' & Hr' & Hk)].
      * destruct (decide (key r = k)) as [Heq|Hne]; [|by left].
        right. exists r. split; [by left|done].
      * right. exists r'. split; [by right|done].
    + intros [Hs|(r' & Hr' & Hk)].
      * left. destruct (decide (key r = k)); [by eexists|done].
      * apply elem_of_cons in Hr' as [->|Hr'].
        -- left. rewrite decide_True by done. by eexists.
        -- right. by exists r'.
Qed.

Lemma foldl_accumulate_lookup d (acc : gmap string Q) k :
  default 0 (foldl (accumulate key) acc d !! k)
  == default 0 (acc !! k) + total (filter (λ r, key r = k) d).
Proof.
  revert acc. induction d as [|r d IH]; intros acc; simpl.
  - rewrite filter_nil, total_nil. ring.
  - rewrite IH, accumulate_lookup, filter_cons.
    destruct (decide (key r = k)) as [Heq|Hne]; simpl.
    + rewrite total_cons. ring.
    + reflexivity.
Qed.

Lemma to_series_Permutation (m : gmap string Q) : to_series m ≡ₚ map_to_list m.
Proof. apply stable_sort_Permutation. Qed.

Lemma elem_of_groupby d k s :
  (k, s) ∈ groupby key d ↔ groupby_sum key d !! k = Some s.
Proof.
  unfold groupby. rewrite to_series_Permutation. apply elem_of_map_to_list.
Qed.

(** C5: the group-by-sum of a subset lists every group key carried by a row
    of the subset exactly once and no other key; the sum of a group is the
    sum of the metric over exactly the rows of the subset with that key, and
    the sums of all groups add up to the sum of the metric over the subset. *)
Theorem groupby_sum_exact (subset : DataFrame) :
  NoDup (groupby key subset).*1
  ∧ (∀ k, k ∈ (groupby key subset).*1 ↔ ∃ r, r ∈ subset ∧ key r = k)
  ∧ (∀ k s, (k, s) ∈ groupby key subset →
       s == total (filter (λ r, key r = k) subset))
  ∧ sumQ (groupby key subset).*2 == total subset.
Proof.
  split; [|split; [|split]].
  - unfold groupby. rewrite to_series_Permutation. apply NoDup_fst_map_to_list.
  - intros k. split.
    + intros Hk. apply list_elem_of_fmap in Hk as ([k' s] & -> & Hin).
      apply elem_of_groupby in Hin.
      assert (is_Some (groupby_sum key subset !! k')) as Hs by eauto.
      apply foldl_accumulate_is_Some in Hs as [Hs|Hs]; [|done].
      rewrite lookup_empty in Hs. by destruct Hs.
    + intros Hk.
      assert (is_Some (groupby_sum key subset !! k)) as [s Hs].
      { apply foldl_accumulate_is_Some. by right. }
      apply list_elem_of_fmap. exists (k, s). split; [done|].
      by apply elem_of_groupby.
  - intros k s Hin. apply elem_of_groupby in Hin.
    pose proof (foldl_accumulate_lookup subset ∅ k) as Hl.
    fold (groupby_sum key subset) in Hl. rewrite Hin, lookup_empty in Hl.
    simpl in Hl. rewrite Hl. ring.
  - unfold groupby. rewrite (sumQ_Permutation _ (map_to_list (groupby_sum key subset)).*2).
    + unfold groupby_sum. rewrite foldl_accumulate_sum, map_to_list_empty.
      change (sumQ ([] : list (string * Q)).*2) with 0. ring.
    + by rewrite to_series_Permutation.
Qed.

End Aggregation.

(** ** Rounding and float64 results *)

Section Rounding.
#[local] Open Scope Q_scope.

Lemma rint_proper q1 q2 : q1 == q2 → rint q1 = rint q2.
Proof.
  intros Heq. unfold rint. rewrite (Qfloor_comp _ _ Heq).
  assert (q1 - inject_Z (Qfloor q2) == q2 - inject_Z (Qfloor q2)) as Hd
    by (rewrite Heq; reflexivity).
  by rewrite (Qcompare_comp _ _ Hd _ _ (Qeq_refl (1 # 2))).
Qed.

Lemma round_proper q1 q2 n : q1 == q2 → round q1 n == round q2 n.
Proof.
  intros Heq. unfold round.
  rewrite (rint_proper (q1 * inject_Z (10 ^ n)) (q2 * inject_Z (10 ^ n)));
    [reflexivity|].
  by rewrite Heq.
Qed.

Lemma rint_bound q :
  - (1 # 2) <= inject_Z (rint q) - q ∧ inject_Z (rint q) - q <= 1 # 2.
Proof.
  pose proof (Qfloor_le q) as Hlo. pose proof (Qlt_floor q) as Hhi.
  rewrite inject_Z_plus in Hhi. change (inject_Z 1) with 1 in Hhi.
  unfold rint.
  destruct (Qcompare (q - inject_Z (Qfloor q)) (1 # 2)) eqn:Hc.
  - apply Qeq_alt in Hc.
    destruct (Z.even (Qfloor q));
      rewrite ?inject_Z_plus; change (inject_Z 1) with 1; lra.
  - apply Qlt_alt in Hc. lra.
  - apply Qgt_alt in Hc.
    rewrite inject_Z_plus. change (inject_Z 1) with 1. lra.
Qed.

Lemma round_2 q : round q 2 == inject_Z (rint (q * 100)) / 100.
Proof. reflexivity. Qed.

Lemma round_2_bound q : - (1 # 200) <= round q 2 - q ∧ round q 2 - q <= 1 # 200.
Proof.
  rewrite round_2. destruct (rint_bound (q * 100)) as [Hlo Hhi].
  split.
  - apply Qmult_le_l with (z := 100); [reflexivity|]. field_simplify. lra.
  - apply Qmult_le_l with (z := 100); [reflexivity|]. field_simplify. lra.
Qed.

Lemma round_nonneg q n : 0 <= q → 0 <= round q n.
Proof.
  intros Hq. unfold round.
  assert (0 < inject_Z (10 ^ n) ∨ (10 ^ n = 0)%Z) as [Hp|Hz].
  { destruct (Z.le_gt_cases 0 n) as [Hn|Hn].
    - left. change 0 with (inject_Z 0). rewrite <- Zlt_Qlt.
      by apply Z.pow_pos_nonneg.
    - right. by rewrite Z.pow_neg_r. }
  - apply Qle_shift_div_l; [done|]. rewrite Qmult_0_l.
    assert (0 <= q * inject_Z (10 ^ n)) as Hx by (apply Qmult_le_0_compat; lra).
    destruct (rint_bound (q * inject_Z (10 ^ n))) as [Hlo _].
    change 0 with (inject_Z 0). rewrite <- Zle_Qle.
    assert (- 1 < inject_Z (rint (q * inject_Z (10 ^ n)))) as Hr by lra.
    change (- 1) with (inject_Z (- 1)) in Hr. rewrite <- Zlt_Qlt in Hr. lia.
  - rewrite Hz. unfold Qdiv. change (/ inject_Z 0) with 0.
    rewrite Qmult_0_r. apply Qle_refl.
Qed.

Lemma truediv_finite a b : ¬ b == 0 → truediv a b = Fin (a / b).
Proof.
  intros Hb. unfold truediv.
  destruct (Qeq_bool b 0) eqn:Hq; [|done].
  by apply Qeq_bool_iff in Hq.
Qed.

Lemma truediv_proper a b1 b2 : b1 == b2 → feq (truediv a b1) (truediv a b2).
Proof.
  intros Heq. unfold truediv.
  assert (Qeq_bool b1 0 = Qeq_bool b2 0) as ->.
  { destruct (Qeq_bool b2 0) eqn:H2.
    - apply Qeq_bool_iff. apply Qeq_bool_iff in H2. by rewrite Heq.
    - destruct (Qeq_bool b1 0) eqn:H1; [|done].
      apply Qeq_bool_iff in H1. apply Qeq_bool_neq in H2.
      destruct H2. by rewrite <- Heq. }
  destruct (Qeq_bool b2 0) eqn:H2.
  - by destruct (Qcompare a 0).
  - simpl. apply Qeq_bool_neq in H2. by rewrite Heq.
Qed.

Lemma fmul_proper x y c : feq x y → feq (fmul x c) (fmul y c).
Proof.
  destruct x, y; simpl; try done.
  - intros ->. reflexivity.
  - by destruct (Qcompare c 0).
  - by destruct (Qcompare c 0).
Qed.

Lemma fround_proper x y n : feq x y → feq (fround x n) (fround y n).
Proof.
  destruct x, y; simpl; try done. apply round_proper.
Qed.

End Rounding.

(** ** Ranking: [nlargest], ranks and shares *)

Section TopN.
Import Dashboard.
#[local] Open Scope Q_scope.

Lemma value_geb_total x y : value_geb x y = true ∨ value_geb y x = true.
Proof.
  unfold value_geb. rewrite !Qle_bool_iff.
  destruct (Qlt_le_dec x.2 y.2) as [Hlt|Hle]; [right|left]; lra.
Qed.

Lemma value_geb_trans x y z :
  value_geb x y = true → value_geb y z = true → value_geb x z = true.
Proof. unfold value_geb. rewrite !Qle_bool_iff. lra. Qed.

Lemma StronglySorted_weaken {A} (R1 R2 : relation A) (l : list A) :
  (∀ x y, R1 x y → R2 x y) → StronglySorted R1 l → StronglySorted R2 l.
Proof.
  intros HR. induction 1 as [|x l _ IH Hx]; constructor; [done|].
  eapply Forall_impl; [exact Hx|]. intros y. apply HR.
Qed.

Lemma sort_values_descending_sorted s :
  StronglySorted (λ a b, b.2 <= a.2) (sort_values_descending s).
Proof.
  eapply StronglySorted_weaken;
    [|apply stable_sort_StronglySorted;
      [apply value_geb_total | apply value_geb_trans]].
  intros a b Hab. by apply Qle_bool_iff.
Qed.

Lemma sort_values_descending_Permutation s : sort_values_descending s ≡ₚ s.
Proof. apply stable_sort_Permutation. Qed.

Lemma sort_values_descending_ties s v :
  filter (λ a, a.2 == v) (sort_values_descending s) = filter (λ a, a.2 == v) s.
Proof.
  apply stable_sort_stable. intros a b Ha Hb.
  apply Qle_bool_iff. rewrite Ha, Hb. apply Qle_refl.
Qed.

Lemma nlargest_length n s : length (nlargest n s) = (n `min` length s)%nat.
Proof.
  unfold nlargest, sort_values_descending.
  by rewrite length_take, stable_sort_length.
Qed.

Lemma fmap_zip_with_fst {A B C D} (f : A → B → C) (g : C → D) (h : A → D)
    (l : list A) (k : list B) :
  (∀ x y, g (f x y) = h x) → (length l ≤ length k)%nat →
  g <$> zip_with f l k = h <$> l.
Proof.
  intros Hg. revert k. induction l as [|x l IH]; intros [|y k] Hlen;
    simpl in *; try done; try lia.
  rewrite Hg, IH; [done|lia].
Qed.

Lemma ranked_groups top : (λ t, (Group t, Value t)) <$> ranked top = top.
Proof.
  unfold ranked. apply fmap_zip_with_l.
  - by intros [k v] rank.
  - by rewrite length_seq.
Qed.

Lemma ranked_values top : Value <$> ranked top = top.*2.
Proof.
  unfold ranked. apply fmap_zip_with_fst; [done|by rewrite length_seq].
Qed.

Lemma ranked_length top : length (ranked top) = length top.
Proof. by rewrite <- (ranked_groups top) at 2; rewrite length_fmap. Qed.

Lemma ranked_ranks top : Rank <$> ranked top = seq 1 (length (ranked top)).
Proof.
  rewrite ranked_length. unfold ranked. apply fmap_zip_with_r; [done|].
  by rewrite length_seq.
Qed.

Lemma ranked_shares top :
  Share <$> ranked top = (λ v, share_percent v (sumQ top.*2)) <$> top.*2.
Proof.
  rewrite <- list_fmap_compose. unfold ranked.
  apply fmap_zip_with_fst; [done|by rewrite length_seq].
Qed.

Lemma ranked_share top t :
  t ∈ ranked top → Share t = share_percent (Value t) (sumQ top.*2).
Proof.
  unfold ranked. generalize (sumQ top.*2) as s. generalize (seq 1 (length top)) as k.
  induction top as [|kv top IH]; intros [|rank k] s Hin; simpl in *;
    try by apply elem_of_nil in Hin.
  apply elem_of_cons in Hin as [->|Hin]; [done|by eapply IH].
Qed.

(** C6: [top_n] returns [min n count] groups, ranked 1, 2, ... in descending
    order of value; they are the largest: together with the groups left out
    they make up the aggregated mapping, and no group left out has a larger
    value than a returned one; groups of equal value come in their order in
    the aggregated mapping, the earlier ones first; with at most [n] groups
    all of them are returned, and an empty mapping gives an empty result. *)
Theorem top_n_largest_ranked (aggregated : list (string * Q)) (n : nat) :
  let res := top_n n aggregated in
  let top := (λ t, (Group t, Value t)) <$> res in
  length res = (n `min` length aggregated)%nat
  ∧ Rank <$> res = seq 1 (length res)
  ∧ StronglySorted (λ a b, b.2 <= a.2) top
  ∧ (∃ rest, top ++ rest ≡ₚ aggregated ∧ ∀ a b, a ∈ top → b ∈ rest → b.2 <= a.2)
  ∧ (∀ v, filter (λ a, a.2 == v) top `prefix_of` filter (λ a, a.2 == v) aggregated)
  ∧ ((length aggregated ≤ n)%nat →
       top ≡ₚ aggregated ∧ Rank <$> res = seq 1 (length aggregated))
  ∧ (aggregated = [] → res = []).
Proof.
  intros res top. subst res top. unfold top_n. rewrite ranked_groups.
  pose proof (sort_values_descending_sorted aggregated) as Hsorted.
  rewrite <- (take_drop n (sort_values_descending aggregated)) in Hsorted.
  split; [|split; [|split; [|split; [|split; [|split]]]]].
  - by rewrite ranked_length, nlargest_length.
  - apply ranked_ranks.
  - by eapply StronglySorted_app_1_l.
  - exists (drop n (sort_values_descending aggregated)). split.
    + unfold nlargest. rewrite take_drop. apply sort_values_descending_Permutation.
    + intros a b Ha Hb. by eapply (StronglySorted_app_1_elem_of _ _ _ a b Hsorted).
  - intros v. rewrite <- (sort_values_descending_ties aggregated v).
    unfold nlargest.
    rewrite <- (take_drop n (sort_values_descending aggregated)) at 2.
    rewrite filter_app. by apply prefix_app_r.
  - intros Hlen. split.
    + unfold nlargest.
      rewrite take_ge
        by (unfold sort_values_descending; by rewrite stable_sort_length).
      apply sort_values_descending_Permutation.
    + rewrite ranked_ranks, ranked_length, nlargest_length. f_equal. lia.
  - intros ->. unfold nlargest, sort_values_descending. simpl.
    by rewrite take_nil.
Qed.

End TopN.

(** ** Shares *)

Section Shares.
Import Dashboard.
#[local] Open Scope Q_scope.

Lemma share_percent_finite v s :
  ¬ s == 0 → share_percent v s = Fin (round (v / s * 100) 2).
Proof. intros Hs. unfold share_percent. by rewrite truediv_finite. Qed.

Lemma share_percent_proper v s1 s2 :
  s1 == s2 → feq (share_percent v s1) (share_percent v s2).
Proof.
  intros Heq. unfold share_percent.
  by apply fround_proper, fmul_proper, truediv_proper.
Qed.

Lemma rounded_shares_sum (vs : list Q) (s : Q) :
  ¬ s == 0 →
  - (inject_Z (Z.of_nat (length vs)) * (1 # 200))
    <= sumQ ((λ v, round (v / s * 100) 2) <$> vs) - sumQ vs / s * 100
  ∧ sumQ ((λ v, round (v / s * 100) 2) <$> vs) - sumQ vs / s * 100
    <= inject_Z (Z.of_nat (length vs)) * (1 # 200).
Proof.
  intros Hs. induction vs as [|v vs [IHlo IHhi]].
  - change (sumQ []) with 0. simpl. split; field_simplify; try done; lra.
  - rewrite fmap_cons, !sumQ_cons.
    change (length (v :: vs)) with (S (length vs)).
    rewrite Nat2Z.inj_succ, <- Z.add_1_r, inject_Z_plus.
    change (inject_Z 1) with 1.
    destruct (round_2_bound (v / s * 100)) as [Hlo Hhi].
    assert ((v + sumQ vs) / s * 100 == v / s * 100 + sumQ vs / s * 100) as ->
      by (by field).
    split; lra.
Qed.

(** C2, as the code has it: the share of a returned group is its value
    divided by the sum of the values of the returned top-n groups, times 100,
    rounded to 2 decimals.  This is the share against all groups of the
    aggregated mapping when the mapping has at most [n] groups; and the
    shares of the returned groups add up to 100 within half a hundredth per
    group, when their values do not add up to zero. *)
Theorem share_percent_of_returned (aggregated : list (string * Q)) (n : nat) :
  let res := top_n n aggregated in
  let returned_total := sumQ (Value <$> res) in
  Forall (λ t, Share t = share_percent (Value t) returned_total) res
  ∧ ((length aggregated ≤ n)%nat →
       Forall (λ t, feq (Share t) (share_percent (Value t) (sumQ aggregated.*2)))
         res)
  ∧ (¬ returned_total == 0 →
       ∃ shares, Share <$> res = Fin <$> shares
         ∧ Qabs (sumQ shares - 100)
           <= inject_Z (Z.of_nat (length res)) * (1 # 200)).
Proof.
  intros res returned_total. subst res returned_total. unfold top_n.
  rewrite ranked_values. split; [|split].
  - apply Forall_forall. intros t Ht. by apply ranked_share.
  - intros Hlen. apply Forall_forall. intros t Ht.
    rewrite (ranked_share _ _ Ht). apply share_percent_proper.
    apply sumQ_Permutation. unfold nlargest.
    rewrite take_ge
      by (unfold sort_values_descending; by rewrite stable_sort_length).
    by rewrite sort_values_descending_Permutation.
  - intros Hs. set (top := nlargest n aggregated) in *.
    exists ((λ v, round (v / sumQ top.*2 * 100) 2) <$> top.*2). split.
    + rewrite ranked_shares, <- (list_fmap_compose _ Fin).
      apply list_fmap_ext. intros i v _. simpl. by apply share_percent_finite.
    + rewrite ranked_length, <- (length_fmap snd top).
      destruct (rounded_shares_sum top.*2 (sumQ top.*2) Hs) as [Hlo Hhi].
      assert (sumQ top.*2 / sumQ top.*2 * 100 == 100) as Hunit by (by field).
      rewrite Hunit in Hlo, Hhi.
      apply Qabs_Qle_condition. split; lra.
Qed.

End Shares.

(** C2, as stated, fails: with exports of 100 to each of twenty-one
    partners, [top_exports] keeps twenty groups; the first has the share
    5.00, its share of the twenty returned groups, where its share against
    all twenty-one groups is 4.76. *)
Lemma share_percent_not_of_all_groups :
  let aggregated := Dashboard.export_data Examples.exports21 (Examples.all_of 2024) in
  let res := Dashboard.top_exports Examples.exports21 (Examples.all_of 2024) in
  length aggregated = 21%nat
  ∧ length res = 20%nat
  ∧ ∃ t, head res = Some t
      ∧ Dashboard.Value t = 100%Q
      ∧ Dashboard.Share t = Fin 5.00%Q
      ∧ Dashboard.share_percent (Dashboard.Value t) (sumQ aggregated.*2)
        = Fin 4.76%Q
      ∧ ¬ feq (Dashboard.Share t)
            (Dashboard.share_percent (Dashboard.Value t) (sumQ aggregated.*2)).
Proof.
  intros aggregated res.
  split; [vm_compute; reflexivity|]. split; [vm_compute; reflexivity|].
  eexists. split; [vm_compute; reflexivity|].
  split; [reflexivity|]. split; [reflexivity|].
  split; [vm_compute; reflexivity|].
  vm_compute. discriminate.
Qed.

(** ** Key trade indicators *)

Section Indicators.
Import Dashboard.
#[local] Open Scope Q_scope.

Lemma total_nonneg d : Forall (λ r, 0 <= Trade_Value_USD r) d → 0 <= total d.
Proof. intros Hd. unfold total. apply sumQ_nonneg. by apply Forall_fmap. Qed.

Lemma filter_data_Forall (P : Row → Prop) df year quarter month flow hs_codes :
  Forall P df → Forall P (filter_data df year quarter month flow hs_codes).
Proof.
  rewrite !Forall_forall. intros Hdf r Hr. apply Hdf.
  by apply (filter_data_exact df year quarter month flow hs_codes).
Qed.

(** The guards of [growth_rate] and [eac_share]: neither divides by zero. *)
Lemma growth_rate_guarded df sel :
  growth_rate df sel = Fin 0
  ∨ 0 < prev_total df sel
    ∧ growth_rate df sel
      = Fin ((total_trade df sel - prev_total df sel) / prev_total df sel * 100).
Proof.
  unfold growth_rate.
  destruct (decide (prev_year sel ∈ Year <$> df)); [|by left].
  destruct (Qlt_le_dec 0 (prev_total df sel)) as [Hpos|Hle]; [|by left].
  right. split; [done|]. rewrite truediv_finite; [done|]. lra.
Qed.

Lemma eac_share_guarded df sel :
  eac_share df sel = Fin 0
  ∨ 0 < total_trade df sel
    ∧ eac_share df sel = Fin (eac_trade df sel / total_trade df sel * 100).
Proof.
  unfold eac_share.
  destruct (Qlt_le_dec 0 (total_trade df sel)) as [Hpos|Hle]; [|by left].
  right. split; [done|]. rewrite truediv_finite; [done|]. lra.
Qed.

Lemma guarded_figures_finite df sel :
  is_finite (growth_rate df sel) ∧ is_finite (eac_share df sel).
Proof.
  split.
  - by destruct (growth_rate_guarded df sel) as [->|[_ ->]].
  - by destruct (eac_share_guarded df sel) as [->|[_ ->]].
Qed.

(** The guard of [growth_rate] is [prev_total > 0]: a prior-year total below
    zero is reported as no growth as well. *)
Lemma growth_rate_negative_prior :
  prev_total Examples.refund_table (Examples.exports_of 2024) == - (100)
  ∧ growth_rate Examples.refund_table (Examples.exports_of 2024) = Fin 0.
Proof. vm_compute. split; reflexivity. Qed.

(** The three "% of total" figures divide by [total_trade] unguarded: with
    no row selected they are 0/0. *)
Lemma percent_of_total_no_rows df sel :
  filtered_df df sel = [] →
  exports_percent_of_total df sel = NaN
  ∧ imports_percent_of_total df sel = NaN
  ∧ reexports_percent_of_total df sel = NaN.
Proof.
  intros Hnil.
  unfold exports_percent_of_total, imports_percent_of_total,
    reexports_percent_of_total, total_exports, total_imports, total_reexports,
    total_trade.
  by rewrite Hnil.
Qed.

(** C3, at a selection that matches no row (the HS code multiselect emptied,
    on a table with rows for the selected year): growth and EAC share are
    reported as 0 by their guards, and the three "% of total" figures of the
    KPI cards, which have no guard, are the result nan of the division 0/0. *)
Theorem percent_of_total_unguarded :
  let df := Examples.uganda_table in
  let sel := Examples.no_hs_code 2024 in
  filtered_df df sel = []
  ∧ total_trade df sel = 0
  ∧ growth_rate df sel = Fin 0
  ∧ eac_share df sel = Fin 0
  ∧ exports_percent_of_total df sel = NaN
  ∧ imports_percent_of_total df sel = NaN
  ∧ reexports_percent_of_total df sel = NaN.
Proof. vm_compute. repeat split. Qed.

(** C4: on a table of non-negative trade values, the year-over-year growth
    is exactly 0 when the prior year is absent from the table or the
    prior-year filtered total is zero, and otherwise it is
    (current_total - prior_total) / prior_total * 100, both totals being the
    sum over [filter_data] with the same selection, for the selected year
    and the year before. *)
Theorem growth_rate_policy (df : DataFrame) (sel : Selection) :
  Forall (λ r, 0 <= Trade_Value_USD r) df →
  let totals year :=
    total (filter_data df year (selected_quarter sel) (selected_month sel)
             (selected_flow sel) (selected_hs sel)) in
  let current_total := totals (selected_year sel) in
  let prior_total := totals (selected_year sel - 1)%Z in
  ((selected_year sel - 1)%Z ∉ Year <$> df ∨ prior_total == 0 →
     growth_rate df sel = Fin 0)
  ∧ ((selected_year sel - 1)%Z ∈ Year <$> df → ¬ prior_total == 0 →
       feq (growth_rate df sel)
         (Fin ((current_total - prior_total) / prior_total * 100))).
Proof.
  intros Hdf totals current_total prior_total.
  assert (0 <= prior_total) as Hnonneg
    by (by apply total_nonneg, filter_data_Forall).
  change prior_total with (prev_total df sel) in *.
  change current_total with (total_trade df sel) in *.
  change (selected_year sel - 1)%Z with (prev_year sel).
  unfold growth_rate.
  destruct (decide (prev_year sel ∈ Year <$> df)) as [Hin|Hout].
  - destruct (Qlt_le_dec 0 (prev_total df sel)) as [Hpos|Hle].
    + split; [intros [Hout|Hzero]; [done|lra]|].
      intros _ _. rewrite truediv_finite by lra. simpl. reflexivity.
    + split; [done|]. intros _ Hne. destruct Hne. lra.
  - split; [done|]. by intros Hin.
Qed.

Lemma growth_rate_policy_witness :
  let df := Examples.uganda_table in
  let sel := Examples.exports_of 2024 in
  feq (growth_rate df sel)
    (Fin ((total_trade df sel - prev_total df sel) / prev_total df sel * 100)).
Proof.
  intros df sel. refine (proj2 (growth_rate_policy df sel _) _ _).
  - repeat constructor; vm_compute; discriminate.
  - change (2023%Z ∈ [2023%Z; 2024%Z]). constructor.
  - vm_compute. discriminate.
Defined.

End Indicators.

(** ** Loading the data *)

Section LoadData.
Import Dashboard.

Lemma read_csv_missing fs path :
  fs !! path = None → read_csv fs path = inl FileNotFoundError.
Proof. intros Hnone. unfold read_csv. by rewrite Hnone. Qed.

(** Only the missing file is caught: another failure of [read_csv] leaves
    [load_data] as the exception it is. *)
Lemma load_data_other_errors fs e :
  read_csv fs "rwanda_trade_data.csv" = inl e → e ≠ FileNotFoundError →
  load_data fs = Raised e.
Proof. intros Hr He. unfold load_data. rewrite Hr. by destruct e. Qed.

(** C7: when the data file is absent, [load_data] puts the error message on
    the page and stops; the script ends there, with nothing else rendered,
    and no exception leaves [load_data]. *)
Theorem load_data_missing_file (fs : gmap string file) (sel : Selection) :
  fs !! "rwanda_trade_data.csv" = None →
  load_data fs
    = Stopped [st_error "⚠️ Data file not found! Please run create_rwanda_trade_data.py first"]
  ∧ dashboard fs sel
    = Stopped [st_error "⚠️ Data file not found! Please run create_rwanda_trade_data.py first"]
  ∧ ∀ e, load_data fs ≠ Raised e.
Proof.
  intros Hnone.
  assert (load_data fs
    = Stopped [st_error "⚠️ Data file not found! Please run create_rwanda_trade_data.py first"])
    as Hload by (unfold load_data; by rewrite read_csv_missing).
  split; [done|]. split.
  - unfold dashboard. by rewrite Hload.
  - intros e. by rewrite Hload.
Qed.

Lemma load_data_missing_file_witness :
  dashboard ∅ (Examples.all_of 2024)
  = Stopped [st_error "⚠️ Data file not found! Please run create_rwanda_trade_data.py first"].
Proof.
  exact (proj1 (proj2 (load_data_missing_file ∅ (Examples.all_of 2024)
                         (lookup_empty _)))).
Defined.

End LoadData.

(** ** The generated entries *)

Section Generated.
Import Generator.
Context (np : Numpy) (Hnp : NumpySpec np).

Lemma keeps_ret {A} Inv (a : A) (Post : A → Prop) :
  Post a → keeps np Inv (mret a) Post.
Proof. intros Ha s Hs. by exists a, s. Qed.

Lemma keeps_bind {A B} Inv (m : M np A) (k : A → M np B) Mid Post :
  keeps np Inv m Mid → (∀ a, Mid a → keeps np Inv (k a) Post) →
  keeps np Inv (m ≫= k) Post.
Proof.
  intros Hm Hk s Hs. destruct (Hm s Hs) as (a & s' & Hrun & Hs' & Ha).
  destruct (Hk a Ha s' Hs') as (b & s'' & Hrun' & Hs'' & Hb).
  exists b, s''. split; [|done].
  unfold mbind, M_bind. by rewrite Hrun.
Qed.

Lemma keeps_weaken {A} Inv (m : M np A) (Post Post' : A → Prop) :
  keeps np Inv m Post → (∀ a, Post a → Post' a) → keeps np Inv m Post'.
Proof.
  intros Hm Himp s Hs. destruct (Hm s Hs) as (a & s' & Hrun & Hs' & Ha).
  exists a, s'. auto.
Qed.

Lemma keeps_item {A} Inv (o : option A) (a : A) :
  o = Some a → keeps np Inv (item np o) (λ x, x = a).
Proof. intros -> s Hs. by exists a, s. Qed.

Lemma keeps_randint Inv low high :
  (low < high)%Z →
  keeps np Inv (np_random_randint np low high) (λ x, (low ≤ x < high)%Z).
Proof.
  intros Hlt s Hs. unfold np_random_randint.
  pose proof (randint_range np Hnp low high (rand s) Hlt) as Hr.
  destruct (randint np low high (rand s)) as [x r]. by eexists _, _.
Qed.

Lemma keeps_choice Inv n size :
  (0 ≤ size ≤ Z.of_nat n)%Z →
  keeps np Inv (np_random_choice np n size) (Forall (λ i, (i < n)%nat)).
Proof.
  intros Hsize s Hs. unfold np_random_choice. rewrite decide_True by done.
  pose proof (choice_range np Hnp n (Z.to_nat size) (rand s)) as Hr.
  destruct (choice np n (Z.to_nat size) (rand s)) as [l r].
  eexists _, _. split; [done|]. split; [done|]. apply Hr. lia.
Qed.

Lemma keeps_uniform Inv low high :
  (low <= high)%Q →
  keeps np Inv (np_random_uniform np low high)
    (λ x, (low <= x)%Q ∧ (x <= high)%Q).
Proof.
  intros Hle s Hs. unfold np_random_uniform.
  pose proof (uniform_range np Hnp low high (rand s) Hle) as Hr.
  destruct (uniform np low high (rand s)) as [x r]. by eexists _, _.
Qed.

Lemma keeps_append (Inv : Entry → Prop) e :
  Inv e → keeps np Inv (data_append np e) (λ _, True).
Proof.
  intros He s Hs. eexists _, _. split; [done|]. split; [|done].
  simpl. apply Forall_app. split; [done|]. by constructor.
Qed.

Lemma keeps_for_each {A} Inv (l : list A) (body : A → M np ()) :
  (∀ x, x ∈ l → keeps np Inv (body x) (λ _, True)) →
  keeps np Inv (for_each np l body) (λ _, True).
Proof.
  induction l as [|x l IH]; intros Hbody; simpl.
  - by apply keeps_ret.
  - eapply keeps_bind; [apply Hbody; by left|].
    intros _ _. apply IH. intros y Hy. apply Hbody. by right.
Qed.


Lemma year_factor_pos year :
  year ∈ years → (1 <= 1 + inject_Z (year - 2021) * 0.08)%Q.
Proof.
  intros Hy. unfold years in Hy.
  repeat (apply elem_of_cons in Hy as [->|Hy]; [vm_compute; discriminate|]).
  by apply elem_of_nil in Hy.
Qed.

Lemma quarters_month month :
  (1 ≤ month ≤ 12)%Z → quarters !! month = Some (quarter_of_month month).
Proof.
  intros Hm.
  assert (month ∈ [1; 2; 3; 4; 5; 6; 7; 8; 9; 10; 11; 12]%Z) as Hin.
  { change [1; 2; 3; 4; 5; 6; 7; 8; 9; 10; 11; 12]%Z with (seqZ 1 12).
    apply elem_of_seqZ. lia. }
  repeat (apply elem_of_cons in Hin as [->|Hin]; [vm_compute; reflexivity|]).
  by apply elem_of_nil in Hin.
Qed.

Lemma catalog_of_Export : hs_products !! "Export" = Some (catalog_of "Export").
Proof. vm_compute. reflexivity. Qed.

Lemma catalog_of_other flow :
  flow ≠ "Export" → hs_products !! "Import" = Some (catalog_of flow).
Proof.
  intros Hne. unfold catalog_of. rewrite decide_False by done.
  vm_compute. reflexivity.
Qed.

Lemma catalog_of_length flow : length (catalog_of flow) = 15%nat.
Proof.
  unfold catalog_of. destruct (decide (flow = "Export")); vm_compute; reflexivity.
Qed.

Lemma product_entry_keeps year month quarter flow partner prod_idx :
  year ∈ years → (1 ≤ month ≤ 12)%Z → quarters !! month = Some quarter →
  flow ∈ flows → partner ∈ take 20 (partners_of flow) →
  (prod_idx < length (catalog_of flow))%nat →
  keeps np generated
    (product_entry np year month quarter flow partner (catalog_of flow) prod_idx)
    (λ _, True).
Proof.
  intros Hyear Hmonth Hquarter Hflow Hpartner Hidx.
  destruct (lookup_lt_is_Some_2 _ prod_idx Hidx) as [[hs_code hs_desc] Hprod].
  unfold product_entry.
  eapply keeps_bind; [apply keeps_item; exact Hprod|]. intros ? ->.
  eapply keeps_bind; [apply keeps_uniform; lra|]. intros base [Hbase _].
  eapply (keeps_bind _ _ _ (λ p, (0 <= p.1)%Q ∧ (0 <= p.2)%Q)).
  { destruct (decide (flow = "Export")); [apply keeps_ret; split; cbn [fst snd]; lra|].
    destruct (decide (flow = "Import")); [apply keeps_ret; split; cbn [fst snd]; lra|].
    eapply keeps_bind; [apply keeps_uniform; lra|].
    intros base' [Hbase' _]. apply keeps_ret; split; cbn [fst snd]; lra. }
  intros [value_multiplier base_value] [Hmult Hvalue]; cbn [fst snd] in Hmult, Hvalue.
  eapply keeps_bind; [apply keeps_uniform; lra|]. intros price _.
  apply keeps_append.
  constructor;
    cbn [Year Month Quarter Flow Partner_Country Partner_Continent
         Regional_Block HS_Code HS_Description Trade_Value_USD Quantity_KG];
    try assumption; try reflexivity.
  - apply round_nonneg.
    pose proof (year_factor_pos year Hyear) as Hyf.
    destruct (sin_range np Hnp (inject_Z month * pi np / 6)) as [Hsin _].
    repeat apply Qmult_le_0_compat; lra.
  - apply list_elem_of_lookup. by exists prod_idx.
Qed.

Lemma generate_keeps : keeps np generated (generate np) (λ _, True).
Proof.
  unfold generate.
  apply keeps_for_each. intros year Hyear.
  apply keeps_for_each. intros month Hmonth.
  assert (1 ≤ month ≤ 12)%Z as Hrange.
  { unfold months in Hmonth. apply elem_of_seqZ in Hmonth. lia. }
  eapply keeps_bind; [apply keeps_item, quarters_month, Hrange|]. intros ? ->.
  apply keeps_for_each. intros flow Hflow.
  eapply (keeps_bind _ _ _ (λ p, p = (partners_of flow, catalog_of flow))).
  { unfold partners_of. destruct (decide (flow = "Export")) as [->|Hne].
    - eapply keeps_bind; [apply keeps_item, catalog_of_Export|].
      intros ? ->. by apply keeps_ret.
    - eapply keeps_bind; [apply keeps_item, (catalog_of_other flow Hne)|].
      intros ? ->. by apply keeps_ret. }
  intros ? ->.
  apply keeps_for_each. intros partner Hpartner.
  eapply keeps_bind; [apply keeps_randint; lia|]. intros num_products Hnum.
  cbv beta in Hnum.
  eapply keeps_bind;
    [apply keeps_choice; rewrite catalog_of_length; lia|].
  intros selected Hselected.
  apply keeps_for_each. intros prod_idx Hidx.
  rewrite Forall_forall in Hselected.
  apply product_entry_keeps; auto using quarters_month.
Qed.

Lemma dataset_generated : ∃ d, dataset np = Some d ∧ Forall generated d.
Proof.
  unfold dataset.
  destruct (generate_keeps {| rand := seed np 42; data := [] |})
    as ([] & s & -> & Hs & _); [constructor|].
  by exists (data s).
Qed.

End Generated.

(** The stand-in generator meets the ranges asked of numpy. *)
Lemma lcg_spec : Generator.NumpySpec Examples.lcg.
Proof.
  constructor; simpl.
  - intros low high r Hlt.
    pose proof (Z.mod_pos_bound r (high - low)). lia.
  - intros n k r Hk. apply Forall_fmap, Forall_forall. intros i Hi.
    apply elem_of_seq in Hi. simpl. apply Nat.mod_upper_bound. lia.
  - intros low high r Hle.
    assert (0 <= inject_Z (r mod 1000) / 1000 ∧ inject_Z (r mod 1000) / 1000 <= 1)%Q
      as [Hlo Hhi].
    { pose proof (Z.mod_pos_bound r 1000 eq_refl) as [Hr0 Hr1].
      split.
      - apply Qle_shift_div_l; [reflexivity|]. rewrite Qmult_0_l.
        change 0%Q with (inject_Z 0). by rewrite <- Zle_Qle.
      - apply Qle_shift_div_r; [reflexivity|]. rewrite Qmult_1_l.
        change 1000%Q with (inject_Z 1000). rewrite <- Zle_Qle. lia. }
    split; nra.
  - intros x.
    destruct (Qle_bool (x - x * x * x / 6) (- (1))) eqn:H1; [split; lra|].
    destruct (Qle_bool 1 (x - x * x * x / 6)) eqn:H2; [split; lra|].
    assert (¬ (x - x * x * x / 6 <= - (1))%Q) by (rewrite <- Qle_bool_iff; congruence).
    assert (¬ (1 <= x - x * x * x / 6)%Q) by (rewrite <- Qle_bool_iff; congruence).
    split; lra.
Qed.

Section GeneratedData.
Import Generator.

(** C8: the script runs to its end, and every entry of [data] has its month
    in 1..12, the quarter of its month, a non-negative trade value, and the
    continent and the regional block that the lookups give for its partner,
    with "Other" for a partner the lookup does not have. *)
Theorem generated_entries_invariants (np : Numpy) :
  NumpySpec np →
  ∃ d, dataset np = Some d
    ∧ Forall (λ e,
        (1 ≤ Month e ≤ 12)%Z
        ∧ Quarter e = quarter_of_month (Month e)
        ∧ (0 <= Trade_Value_USD e)%Q
        ∧ Partner_Continent e
          = default "Other" (continent_map !! Partner_Country e)
        ∧ Regional_Block e
          = default "Other" (regional_block_map !! Partner_Country e)) d.
Proof.
  intros Hnp. destruct (dataset_generated np Hnp) as (d & Hd & Hgen).
  exists d. split; [done|].
  eapply Forall_impl; [exact Hgen|]. intros e He.
  pose proof (generated_quarter e He) as Hq.
  rewrite (quarters_month _ (generated_month e He)) in Hq.
  split; [apply He|]. split; [congruence|].
  split; [apply He|]. split; apply He.
Qed.

Lemma generated_entries_invariants_witness :
  ∃ d, dataset Examples.lcg = Some d
    ∧ Forall (λ e,
        (1 ≤ Month e ≤ 12)%Z
        ∧ Quarter e = quarter_of_month (Month e)
        ∧ (0 <= Trade_Value_USD e)%Q
        ∧ Partner_Continent e
          = default "Other" (continent_map !! Partner_Country e)
        ∧ Regional_Block e
          = default "Other" (regional_block_map !! Partner_Country e)) d.
Proof. exact (generated_entries_invariants Examples.lcg lcg_spec). Defined.

Lemma regional_block_map_duplicates :
  regional_block_map !! "Zambia" = Some "SADC"
  ∧ regional_block_map !! "Zimbabwe" = Some "SADC"
  ∧ regional_block_map !! "Tanzania" = Some "SADC".
Proof. vm_compute. repeat split. Qed.

(** Zambia and Zimbabwe come after the twentieth place of both partner
    lists, so no entry is generated for them. *)
Lemma zambia_zimbabwe_not_generated e :
  generated e →
  Partner_Country e ≠ "Zambia" ∧ Partner_Country e ≠ "Zimbabwe".
Proof.
  intros He. pose proof (generated_partner e He) as Hin.
  unfold partners_of in Hin.
  destruct (decide (Flow e = "Export")); split; intros Heq;
    rewrite Heq in Hin; apply (bool_decide_pack _) in Hin;
    vm_compute in Hin; exact Hin.
Qed.

(** C9: in the generated data the regional block is a function of the
    partner country, the value the lookup holds for it, where a key written
    twice holds the value written last: an entry for Zambia or Zimbabwe has
    the block SADC, not COMESA, and an entry for Tanzania has SADC, not EAC. *)
Theorem regional_block_last_write_wins (np : Numpy) :
  NumpySpec np →
  ∃ d, dataset np = Some d
    ∧ Forall (λ e,
        Regional_Block e
          = default "Other" (regional_block_map !! Partner_Country e)
        ∧ (Partner_Country e = "Zambia" ∨ Partner_Country e = "Zimbabwe" →
             Regional_Block e = "SADC" ∧ Regional_Block e ≠ "COMESA")
        ∧ (Partner_Country e = "Tanzania" →
             Regional_Block e = "SADC" ∧ Regional_Block e ≠ "EAC")) d
    ∧ (∀ e1 e2, e1 ∈ d → e2 ∈ d → Partner_Country e1 = Partner_Country e2 →
         Regional_Block e1 = Regional_Block e2).
Proof.
  intros Hnp. destruct (dataset_generated np Hnp) as (d & Hd & Hgen).
  destruct regional_block_map_duplicates as (Hzambia & Hzimbabwe & Htanzania).
  exists d. split; [done|]. split.
  - eapply Forall_impl; [exact Hgen|]. intros e He.
    pose proof (generated_block e He) as Hblock.
    split; [done|]. split.
    + intros [Hp|Hp]; rewrite Hp in Hblock.
      * rewrite Hzambia in Hblock. by rewrite Hblock.
      * rewrite Hzimbabwe in Hblock. by rewrite Hblock.
    + intros Hp. rewrite Hp, Htanzania in Hblock. by rewrite Hblock.
  - rewrite Forall_forall in Hgen. intros e1 e2 H1 H2 Heq.
    rewrite (generated_block e1 (Hgen e1 H1)), (generated_block e2 (Hgen e2 H2)).
    by rewrite Heq.
Qed.

(** With the stand-in generator, the entry at index 6 is for Tanzania. *)
Lemma regional_block_last_write_wins_witness :
  ∃ d e, dataset Examples.lcg = Some d
    ∧ d !! 6%nat = Some e
    ∧ Partner_Country e = "Tanzania"
    ∧ Regional_Block e = "SADC".
Proof.
  destruct (regional_block_last_write_wins Examples.lcg lcg_spec)
    as (d & Hd & Hblocks & _).
  assert (∃ e, dataset Examples.lcg ≫= (.!! 6%nat) = Some e
               ∧ Partner_Country e = "Tanzania") as (e & He & Hp).
  { vm_compute. eexists. split; reflexivity. }
  rewrite Hd in He. simpl in He.
  exists d, e. split; [done|]. split; [done|]. split; [done|].
  rewrite Forall_forall in Hblocks.
  apply (Hblocks e); [|done]. apply list_elem_of_lookup. by exists 6%nat.
Defined.

(** C10: a Re-export entry has its partner among the first twenty import
    partners and its product in the Import catalog; [hs_products] has no
    catalog under "Re-export". *)
Theorem reexport_shares_import_lists (np : Numpy) :
  NumpySpec np →
  hs_products !! "Re-export" = None
  ∧ ∃ d catalog, dataset np = Some d
      ∧ hs_products !! "Import" = Some catalog
      ∧ Forall (λ e,
          Flow e = "Re-export" →
          Partner_Country e ∈ take 20 import_partners
          ∧ (HS_Code e, HS_Description e) ∈ catalog) d.
Proof.
  intros Hnp. split; [vm_compute; reflexivity|].
  destruct (dataset_generated np Hnp) as (d & Hd & Hgen).
  exists d, (catalog_of "Re-export").
  split; [done|]. split; [by apply catalog_of_other|].
  eapply Forall_impl; [exact Hgen|]. intros e He Hflow.
  pose proof (generated_partner e He) as Hpartner.
  pose proof (generated_product e He) as Hproduct.
  rewrite Hflow in Hpartner, Hproduct. done.
Qed.

Lemma reexport_shares_import_lists_witness :
  ∃ d catalog, dataset Examples.lcg = Some d
    ∧ hs_products !! "Import" = Some catalog
    ∧ Forall (λ e,
        Flow e = "Re-export" →
        Partner_Country e ∈ take 20 import_partners
        ∧ (HS_Code e, HS_Description e) ∈ catalog) d.
Proof. exact (proj2 (reexport_shares_import_lists Examples.lcg lcg_spec)). Defined.

End GeneratedData.

(** * Further properties of the dashboard *)

(** ** Filtering composes *)

Section FilterComposition.
Import Dashboard.

Lemma filter_none {A} (P : A → Prop) `{∀ x, Decision (P x)} (l : list A) :
  (∀ x, x ∈ l → ¬ P x) → filter P l = [].
Proof.
  induction l as [|x l IH]; intros Hl; [done|].
  rewrite filter_cons_False by (apply Hl; by left).
  apply IH. intros y Hy. apply Hl. by right.
Qed.

Lemma filter_all {A} (P : A → Prop) `{∀ x, Decision (P x)} (l : list A) :
  (∀ x, x ∈ l → P x) → filter P l = l.
Proof.
  induction l as [|x l IH]; intros Hl; [done|].
  rewrite filter_cons_True by (apply Hl; by left).
  f_equal. apply IH. intros y Hy. apply Hl. by right.
Qed.

(** X1: filtering the result of [filter_data] again with the same selection
    changes nothing. *)
Theorem filter_data_idempotent (df : DataFrame) (year : Z)
    (quarter month flow : string) (hs_codes : list string) :
  filter_data (filter_data df year quarter month flow hs_codes)
    year quarter month flow hs_codes
  = filter_data df year quarter month flow hs_codes.
Proof.
  rewrite !filter_data_selected. by apply list_filter_filter_l.
Qed.

(** X2: an emptied HS code selection is not read as "no restriction": it
    selects no row at all, whatever the other fields are. *)
Theorem filter_data_no_hs_code (df : DataFrame) (year : Z)
    (quarter month flow : string) :
  filter_data df year quarter month flow [] = [].
Proof.
  rewrite filter_data_selected. apply filter_none.
  intros r _ (_ & _ & _ & _ & Hhs).
  assert (HS_Code r ∈ ([] : list string)) as Hin.
  { apply Hhs. intros Hall. by apply elem_of_nil in Hall. }
  by apply elem_of_nil in Hin.
Qed.

Lemma filter_data_all df year :
  filter_data df year "All" "All" "All" ["All"] = filter (λ r, Year r = year) df.
Proof.
  rewrite filter_data_selected. apply list_filter_iff. intros r.
  unfold selected. split; [by intros [? _]|]. intros Hy.
  split; [done|]. repeat split; try done.
  intros Hall. destruct Hall. by left.
Qed.

Lemma filter_ext_in {A} (P Q : A → Prop) `{∀ x, Decision (P x)}
    `{∀ x, Decision (Q x)} (l : list A) :
  (∀ x, x ∈ l → P x ↔ Q x) → filter P l = filter Q l.
Proof.
  induction l as [|x l IH]; intros Hl; [done|].
  rewrite !filter_cons, IH by (intros y Hy; apply Hl; by right).
  destruct (decide (P x)) as [HP|HP], (decide (Q x)) as [HQ|HQ]; try done.
  - destruct HQ. by apply (Hl x); [left|].
  - destruct HP. by apply (Hl x); [left|].
Qed.

(** X3: with every field at "All" the rows of the selected year are
    returned, and any other selection for that year returns a sublist of
    them, in the same order. *)
Theorem filter_data_within_year (df : DataFrame) (year : Z)
    (quarter month flow : string) (hs_codes : list string) :
  filter_data df year "All" "All" "All" ["All"] = filter (λ r, Year r = year) df
  ∧ filter_data df year quarter month flow hs_codes
    `sublist_of` filter_data df year "All" "All" "All" ["All"].
Proof.
  split; [apply filter_data_all|]. rewrite filter_data_all, filter_data_selected.
  rewrite <- (list_filter_filter_l (selected year quarter month flow hs_codes)
                (λ r, Year r = year)) by (by intros r [? _]).
  apply sublist_filter.
Qed.

End FilterComposition.

(** ** The KPI cards add up *)

Section Cards.
Import Dashboard.
#[local] Open Scope Q_scope.

Lemma total_filter_le (P : Row → Prop) `{∀ r, Decision (P r)} d :
  Forall (λ r, 0 <= Trade_Value_USD r) d →
  0 <= total (filter P d) ∧ total (filter P d) <= total d.
Proof.
  induction 1 as [|r d Hr _ [IHlo IHhi]].
  - rewrite filter_nil, total_nil. split; apply Qle_refl.
  - rewrite filter_cons. destruct (decide (P r)); rewrite !total_cons; split; lra.
Qed.

Lemma total_by_flow d :
  Forall (λ r, Flow r ∈ ["Export"; "Import"; "Re-export"]) d →
  total d == total (filter (λ r, Flow r = "Export") d)
             + total (filter (λ r, Flow r = "Import") d)
             + total (filter (λ r, Flow r = "Re-export") d).
Proof.
  induction 1 as [|r d Hr _ IH].
  - rewrite !filter_nil, total_nil. ring.
  - rewrite !filter_cons, total_cons.
    repeat (apply elem_of_cons in Hr as [Hr|Hr];
            [rewrite Hr; simpl; rewrite ?total_cons, IH; ring|]).
    by apply elem_of_nil in Hr.
Qed.

Lemma filtered_df_flow df sel r :
  selected_flow sel ≠ "All" → r ∈ filtered_df df sel → Flow r = selected_flow sel.
Proof.
  intros Hflow Hr. unfold filtered_df in Hr.
  rewrite filter_data_selected in Hr.
  apply list_elem_of_filter in Hr as [(_ & _ & _ & Hf & _) _]. by apply Hf.
Qed.

(** X4: when every row of the table is an Export, an Import or a Re-export,
    the totals of the three flow cards add up to the total trade. *)
Theorem flow_cards_add_up (df : DataFrame) (sel : Selection) :
  Forall (λ r, Flow r ∈ ["Export"; "Import"; "Re-export"]) df →
  total_trade df sel
  == total_exports df sel + total_imports df sel + total_reexports df sel.
Proof.
  intros Hdf. apply total_by_flow. unfold filtered_df. by apply filter_data_Forall.
Qed.

Lemma flow_cards_add_up_witness :
  total_trade Examples.uganda_table (Examples.all_of 2024)
  == total_exports Examples.uganda_table (Examples.all_of 2024)
     + total_imports Examples.uganda_table (Examples.all_of 2024)
     + total_reexports Examples.uganda_table (Examples.all_of 2024).
Proof.
  apply flow_cards_add_up. repeat constructor.
Defined.

(** X5: with a flow selected in the control panel, the card of that flow
    shows the total trade and the cards of the two other flows show 0. *)
Theorem selected_flow_cards (df : DataFrame) (sel : Selection) :
  selected_flow sel ≠ "All" →
  total_exports df sel
    = (if decide (selected_flow sel = "Export") then total_trade df sel else 0)
  ∧ total_imports df sel
    = (if decide (selected_flow sel = "Import") then total_trade df sel else 0)
  ∧ total_reexports df sel
    = (if decide (selected_flow sel = "Re-export") then total_trade df sel else 0).
Proof.
  intros Hflow.
  assert (∀ g, total (filter (λ r, Flow r = g) (filtered_df df sel))
               = if decide (selected_flow sel = g) then total_trade df sel else 0)
    as Hcard.
  { intros g. destruct (decide (selected_flow sel = g)) as [<-|Hne].
    - unfold total_trade. f_equal. apply filter_all.
      intros r Hr. by apply (filtered_df_flow df).
    - rewrite filter_none; [done|].
      intros r Hr Hg. apply Hne. rewrite <- Hg. symmetry.
      by apply (filtered_df_flow df). }
  unfold total_exports, total_imports, total_reexports. by rewrite !Hcard.
Qed.

Lemma selected_flow_cards_witness :
  total_imports Examples.uganda_table (Examples.exports_of 2024) = 0.
Proof.
  exact (proj1 (proj2 (selected_flow_cards Examples.uganda_table
                         (Examples.exports_of 2024) ltac:(discriminate)))).
Defined.

(** X6: when every row is of one of the three flows and the total trade is
    not zero, the three "% of total" figures are finite and add up to 100. *)
Theorem percent_cards_add_up (df : DataFrame) (sel : Selection) :
  Forall (λ r, Flow r ∈ ["Export"; "Import"; "Re-export"]) df →
  ¬ total_trade df sel == 0 →
  ∃ e i r,
    exports_percent_of_total df sel = Fin e
    ∧ imports_percent_of_total df sel = Fin i
    ∧ reexports_percent_of_total df sel = Fin r
    ∧ e + i + r == 100.
Proof.
  intros Hdf Hne.
  pose proof (total_by_flow _ (filter_data_Forall _ df (selected_year sel)
    (selected_quarter sel) (selected_month sel) (selected_flow sel)
    (selected_hs sel) Hdf)) as Hsum.
  fold (filtered_df df sel) in Hsum.
  fold (total_trade df sel) (total_exports df sel) (total_imports df sel)
    (total_reexports df sel) in Hsum.
  unfold exports_percent_of_total, imports_percent_of_total,
    reexports_percent_of_total.
  rewrite !truediv_finite by done. simpl.
  eexists _, _, _. repeat split.
  rewrite Hsum at 1 2 3. field. by rewrite <- Hsum.
Qed.

Lemma percent_cards_add_up_witness :
  ∃ e i r,
    exports_percent_of_total Examples.uganda_table (Examples.all_of 2024) = Fin e
    ∧ imports_percent_of_total Examples.uganda_table (Examples.all_of 2024) = Fin i
    ∧ reexports_percent_of_total Examples.uganda_table (Examples.all_of 2024) = Fin r
    ∧ e + i + r == 100.
Proof.
  apply percent_cards_add_up.
  - repeat constructor.
  - vm_compute. discriminate.
Defined.

(** X7: on a table of non-negative trade values the EAC share is a finite
    percentage between 0 and 100. *)
Theorem eac_share_percentage (df : DataFrame) (sel : Selection) :
  Forall (λ r, 0 <= Trade_Value_USD r) df →
  ∃ q, eac_share df sel = Fin q ∧ 0 <= q ∧ q <= 100.
Proof.
  intros Hdf.
  destruct (total_filter_le (λ r, Regional_Block r = "EAC") (filtered_df df sel))
    as [Hlo Hhi]; [unfold filtered_df; by apply filter_data_Forall|].
  fold (eac_trade df sel) in Hlo, Hhi. fold (total_trade df sel) in Hhi.
  destruct (eac_share_guarded df sel) as [->|[Hpos ->]].
  - exists 0. repeat split; lra.
  - eexists. split; [done|]. split.
    + apply Qmult_le_0_compat; [|lra]. apply Qle_shift_div_l; lra.
    + assert (eac_trade df sel / total_trade df sel <= 1).
      { apply Qle_shift_div_r; lra. }
      lra.
Qed.

Lemma eac_share_percentage_witness :
  ∃ q, eac_share Examples.uganda_table (Examples.all_of 2024) = Fin q
       ∧ 0 <= q ∧ q <= 100.
Proof.
  apply eac_share_percentage. repeat constructor; vm_compute; discriminate.
Defined.

(** X8: on a table of positive trade values, the year-over-year growth is
    the quotient (current - prior) / prior * 100 as soon as one row of the
    prior year matches the selection; the zero of the guard is then only
    the growth of a selection without prior-year rows. *)
Theorem growth_rate_positive_values (df : DataFrame) (sel : Selection) :
  Forall (λ r, 0 < Trade_Value_USD r) df →
  prev_filtered df sel ≠ [] →
  growth_rate df sel
  = Fin ((total_trade df sel - prev_total df sel) / prev_total df sel * 100).
Proof.
  intros Hdf Hrows.
  assert (Forall (λ r, 0 < Trade_Value_USD r) (prev_filtered df sel)) as Hprev
    by (unfold prev_filtered; by apply filter_data_Forall).
  assert (0 < prev_total df sel) as Hpos.
  { unfold prev_total. destruct Hprev as [|r d Hr Hd]; [done|].
    rewrite total_cons.
    assert (0 <= total d); [|lra].
    apply total_nonneg. eapply Forall_impl; [exact Hd|]. intros; simpl in *; lra. }
  assert (prev_year sel ∈ Year <$> df) as Hin.
  { destruct (prev_filtered df sel) as [|r d] eqn:Hd; [done|].
    assert (r ∈ prev_filtered df sel) as Hr by (rewrite Hd; by left).
    unfold prev_filtered in Hr. rewrite filter_data_selected in Hr.
    apply list_elem_of_filter in Hr as [[Hy _] Hr].
    apply list_elem_of_fmap. by exists r. }
  unfold growth_rate. rewrite decide_True by done.
  destruct (Qlt_le_dec 0 (prev_total df sel)); [|lra].
  by rewrite truediv_finite by lra.
Qed.

Lemma growth_rate_positive_values_witness :
  growth_rate Examples.uganda_table (Examples.exports_of 2024)
  = Fin ((total_trade Examples.uganda_table (Examples.exports_of 2024)
          - prev_total Examples.uganda_table (Examples.exports_of 2024))
         / prev_total Examples.uganda_table (Examples.exports_of 2024) * 100).
Proof.
  apply growth_rate_positive_values.
  - repeat constructor; vm_compute; reflexivity.
  - vm_compute. discriminate.
Defined.

End Cards.

(** ** Charts: the grouped Series and their order *)

Section StringOrder.

Lemma string_compare_OT s1 s2 :
  String.compare s1 s2 = OrdersEx.String_as_OT.compare s1 s2.
Proof.
  reflexivity.
Qed.

Lemma string_lt_trans s1 s2 s3 :
  String.compare s1 s2 = Lt → String.compare s2 s3 = Lt →
  String.compare s1 s3 = Lt.
Proof.
  rewrite !string_compare_OT.
  apply (StrictOrder_Transitive (R := OrdersEx.String_as_OT.lt)).
Qed.

Lemma string_leb_trans s1 s2 s3 :
  String.leb s1 s2 = true → String.leb s2 s3 = true → String.leb s1 s3 = true.
Proof.
  unfold String.leb.
  destruct (String.compare s1 s2) eqn:H12; [|
    |discriminate].
  - apply String.compare_eq_iff in H12 as ->. done.
  - destruct (String.compare s2 s3) eqn:H23; [| |discriminate]; intros _ _.
    + apply String.compare_eq_iff in H23 as <-. by rewrite H12.
    + by rewrite (string_lt_trans _ _ _ H12 H23).
Qed.

Lemma string_leb_ltb s1 s2 :
  String.leb s1 s2 = true → s1 ≠ s2 → String.ltb s1 s2 = true.
Proof.
  unfold String.leb, String.ltb.
  destruct (String.compare s1 s2) eqn:Hc; try done.
  apply String.compare_eq_iff in Hc. done.
Qed.

End StringOrder.

Section Series.
Import Dashboard.
#[local] Open Scope Q_scope.
Context (key : Row → string).

Lemma groupby_NoDup d : NoDup (groupby key d).*1.
Proof.
  unfold groupby. rewrite to_series_Permutation. apply NoDup_fst_map_to_list.
Qed.

Lemma groupby_total d : sumQ (groupby key d).*2 == total d.
Proof.
  unfold groupby.
  rewrite (sumQ_Permutation _ (map_to_list (groupby_sum key d)).*2)
    by (by rewrite to_series_Permutation).
  unfold groupby_sum. rewrite foldl_accumulate_sum, map_to_list_empty.
  change (sumQ ([] : list (string * Q)).*2) with 0. ring.
Qed.

Lemma groupby_group d k s :
  (k, s) ∈ groupby key d →
  (∃ r, r ∈ d ∧ key r = k) ∧ s == total (filter (λ r, key r = k) d).
Proof.
  intros Hin. apply elem_of_groupby in Hin. split.
  - assert (is_Some (groupby_sum key d !! k)) as Hs by eauto.
    apply foldl_accumulate_is_Some in Hs as [Hs|Hs]; [|done].
    rewrite lookup_empty in Hs. by destruct Hs.
  - pose proof (foldl_accumulate_lookup key d ∅ k) as Hl.
    fold (groupby_sum key d) in Hl. rewrite Hin, lookup_empty in Hl.
    simpl in Hl. rewrite Hl. ring.
Qed.

Lemma StronglySorted_NoDup_strict {A} (R : relation A) (l : list A) :
  StronglySorted R l → NoDup l → StronglySorted (λ a b, R a b ∧ a ≠ b) l.
Proof.
  induction 1 as [|x l _ IH Hx]; intros Hnd; [constructor|].
  apply NoDup_cons in Hnd as [Hx' Hnd]. constructor; [by apply IH|].
  rewrite Forall_forall in Hx |- *. intros y Hy. split; [by apply Hx|].
  intros ->. done.
Qed.

Lemma groupby_nil d : groupby key d = [] ↔ d = [].
Proof.
  split.
  - intros Hnil. destruct d as [|r d]; [done|]. exfalso.
    assert (is_Some (groupby_sum key (r :: d) !! key r)) as [s Hs].
    { apply foldl_accumulate_is_Some. right. exists r. split; [by left|done]. }
    apply elem_of_groupby in Hs. rewrite Hnil in Hs. by apply elem_of_nil in Hs.
  - by intros ->.
Qed.

(** X9: the Series of a group-by lists its groups by strictly ascending
    key, and it is empty exactly when the grouped rows are. *)
Theorem groupby_keys_ascending (d : DataFrame) :
  StronglySorted (λ k1 k2, String.ltb k1 k2 = true) (groupby key d).*1
  ∧ (groupby key d = [] ↔ d = []).
Proof.
  split.
  - pose proof (groupby_NoDup d) as Hnd.
    assert (StronglySorted (λ a b, key_leb a b = true) (groupby key d)) as Hs.
    { apply stable_sort_StronglySorted.
      - intros x y. apply String.leb_total.
      - intros x y z. apply string_leb_trans. }
    apply (StronglySorted_fmap fst _ (λ k1 k2, String.leb k1 k2 = true)) in Hs;
      [|done].
    apply StronglySorted_NoDup_strict in Hs; [|done].
    eapply StronglySorted_weaken; [|exact Hs].
    intros k1 k2 [Hle Hne]. by apply string_leb_ltb.
  - apply groupby_nil.
Qed.

End Series.

Section Geography.
Import Dashboard Page.
#[local] Open Scope Q_scope.

Lemma value_leb_total x y : value_leb x y = true ∨ value_leb y x = true.
Proof.
  unfold value_leb. rewrite !Qle_bool_iff.
  destruct (Qlt_le_dec x.2 y.2) as [Hlt|Hle]; [left|right]; lra.
Qed.

Lemma value_leb_trans x y z :
  value_leb x y = true → value_leb y z = true → value_leb x z = true.
Proof. unfold value_leb. rewrite !Qle_bool_iff. lra. Qed.

(** X10: the continent chart shows every continent of the selected rows
    once, largest first, and its slices add up to the total trade. *)
Theorem continent_data_covers_total (df : DataFrame) (sel : Selection) :
  continent_data df sel ≡ₚ groupby Partner_Continent (filtered_df df sel)
  ∧ NoDup (continent_data df sel).*1
  ∧ StronglySorted (λ a b, b.2 <= a.2) (continent_data df sel)
  ∧ sumQ (continent_data df sel).*2 == total_trade df sel.
Proof.
  assert (continent_data df sel ≡ₚ groupby Partner_Continent (filtered_df df sel))
    as Hperm by apply sort_values_descending_Permutation.
  split; [done|]. split; [|split].
  - rewrite Hperm. apply groupby_NoDup.
  - apply sort_values_descending_sorted.
  - rewrite (sumQ_Permutation _ (groupby Partner_Continent (filtered_df df sel)).*2)
      by (by rewrite Hperm).
    apply groupby_total.
Qed.

(** X11: the regional block chart shows every block of the selected rows
    once, smallest first, and its bars add up to the total trade. *)
Theorem regional_data_covers_total (df : DataFrame) (sel : Selection) :
  regional_data df sel ≡ₚ groupby Regional_Block (filtered_df df sel)
  ∧ NoDup (regional_data df sel).*1
  ∧ StronglySorted (λ a b, a.2 <= b.2) (regional_data df sel)
  ∧ sumQ (regional_data df sel).*2 == total_trade df sel.
Proof.
  assert (regional_data df sel ≡ₚ groupby Regional_Block (filtered_df df sel))
    as Hperm by apply stable_sort_Permutation.
  split; [done|]. split; [|split].
  - rewrite Hperm. apply groupby_NoDup.
  - eapply StronglySorted_weaken;
      [|apply stable_sort_StronglySorted;
        [apply value_leb_total | apply value_leb_trans]].
    intros a b Hab. by apply Qle_bool_iff.
  - rewrite (sumQ_Permutation _ (groupby Regional_Block (filtered_df df sel)).*2)
      by (by rewrite Hperm).
    apply groupby_total.
Qed.

End Geography.

(** ** Top partners *)

Section TopPartners.
Import Dashboard Page.
#[local] Open Scope Q_scope.

Lemma nlargest_sublist n s : nlargest n s `sublist_of` sort_values_descending s.
Proof. unfold nlargest. apply sublist_take. Qed.

Lemma elem_of_nlargest n s x : x ∈ nlargest n s → x ∈ s.
Proof.
  intros Hx. rewrite <- (sort_values_descending_Permutation s).
  eapply elem_of_sublist; [exact Hx|apply nlargest_sublist].
Qed.

Lemma elem_of_top_n n s t : t ∈ top_n n s → (Group t, Value t) ∈ s.
Proof.
  intros Ht. apply (elem_of_nlargest n). unfold top_n in Ht.
  rewrite <- (ranked_groups (nlargest n s)).
  apply list_elem_of_fmap. by exists t.
Qed.

Lemma top_n_groups n s : Group <$> top_n n s = (nlargest n s).*1.
Proof.
  unfold top_n. rewrite <- (ranked_groups (nlargest n s)) at 2.
  by rewrite <- list_fmap_compose.
Qed.

Lemma Forall_filter_list {A} (P Q : A → Prop) `{∀ x, Decision (P x)} l :
  Forall Q l → Forall Q (filter P l).
Proof.
  rewrite !Forall_forall. intros Hl x Hx.
  apply list_elem_of_filter in Hx as [_ Hx]. by apply Hl.
Qed.

Lemma sumQ_take_le n (l : list Q) :
  Forall (λ x, 0 <= x) l → sumQ (take n l) <= sumQ l.
Proof.
  intros Hl. rewrite <- (take_drop n l) at 2. rewrite sumQ_app.
  assert (0 <= sumQ (drop n l)); [|lra].
  apply sumQ_nonneg. rewrite <- (take_drop n l) in Hl.
  by apply Forall_app in Hl as [_ ?].
Qed.

(** X12: every bar of the export chart is a partner of a selected Export
    row, with the total of the selected Export rows of that partner; no
    partner has two bars and there are at most twenty. *)
Theorem top_exports_partners (df : DataFrame) (sel : Selection) :
  Forall (λ t,
      (∃ r, r ∈ filtered_df df sel ∧ Flow r = "Export"
            ∧ Partner_Country r = Group t)
      ∧ Value t
        == total (filter (λ r, Partner_Country r = Group t)
                    (filter (λ r, Flow r = "Export") (filtered_df df sel))))
    (top_exports df sel)
  ∧ NoDup (Group <$> top_exports df sel)
  ∧ (length (top_exports df sel) ≤ 20)%nat.
Proof.
  split; [|split].
  - apply Forall_forall. intros t Ht.
    apply elem_of_top_n, groupby_group in Ht as [(r & Hr & Hk) Hv].
    split; [|done]. apply list_elem_of_filter in Hr as [Hflow Hr]. by exists r.
  - unfold top_exports. rewrite top_n_groups.
    eapply sublist_NoDup; [|apply fmap_sublist, nlargest_sublist].
    rewrite (sort_values_descending_Permutation (export_data df sel)).
    apply groupby_NoDup.
  - unfold top_exports, top_n. rewrite ranked_length, nlargest_length. lia.
Qed.

(** X13: on a table of non-negative trade values the bars of the export
    chart never add up to more than the Exports card, and they add up to it
    when the selected Export rows have at most twenty partners. *)
Theorem top_exports_within_total (df : DataFrame) (sel : Selection) :
  Forall (λ r, 0 <= Trade_Value_USD r) df →
  sumQ (Value <$> top_exports df sel) <= total_exports df sel
  ∧ ((length (export_data df sel) ≤ 20)%nat →
       sumQ (Value <$> top_exports df sel) == total_exports df sel).
Proof.
  intros Hdf.
  pose proof (groupby_total Partner_Country
                (filter (λ r, Flow r = "Export") (filtered_df df sel))) as Htot.
  fold (export_data df sel) (total_exports df sel) in Htot.
  pose proof (sort_values_descending_Permutation (export_data df sel)) as Hperm.
  unfold top_exports, top_n. rewrite ranked_values. unfold nlargest. split.
  - rewrite <- Htot, <- (sumQ_Permutation _ _ (fmap_Permutation snd _ _ Hperm)).
    rewrite fmap_take. apply sumQ_take_le.
    rewrite Hperm. apply Forall_fmap, Forall_forall. intros [k s] Hks. simpl.
    apply groupby_group in Hks as [_ ->].
    apply total_nonneg. do 2 apply Forall_filter_list.
    unfold filtered_df. by apply filter_data_Forall.
  - intros Hlen.
    rewrite take_ge
      by (unfold sort_values_descending; by rewrite stable_sort_length).
    by rewrite (sumQ_Permutation _ _ (fmap_Permutation snd _ _ Hperm)).
Qed.

Lemma top_exports_within_total_witness :
  sumQ (Value <$> top_exports Examples.exports21 (Examples.all_of 2024))
  <= total_exports Examples.exports21 (Examples.all_of 2024).
Proof.
  apply top_exports_within_total.
  apply Forall_fmap, Forall_forall. intros partner _. simpl.
  vm_compute. discriminate.
Defined.

(** X14: the "Top Export Destination" insight is absent exactly when no
    Export row is selected; otherwise it names a partner of the export
    Series whose total no other partner exceeds. *)
Theorem top_export_insight_is_largest (df : DataFrame) (sel : Selection) :
  (top_export_insight df sel = None
   ↔ filter (λ r, Flow r = "Export") (filtered_df df sel) = [])
  ∧ (∀ partner value share,
       top_export_insight df sel = Some (partner, value, share) →
       (partner, value) ∈ export_data df sel
       ∧ ∀ k v, (k, v) ∈ export_data df sel → v <= value).
Proof.
  unfold top_export_insight, top_exports, top_n, nlargest.
  pose proof (sort_values_descending_sorted (export_data df sel)) as Hsorted.
  pose proof (sort_values_descending_Permutation (export_data df sel)) as Hperm.
  pose proof (groupby_nil Partner_Country
                (filter (λ r, Flow r = "Export") (filtered_df df sel)))
    as Hnil.
  fold (export_data df sel) in Hnil.
  destruct (sort_values_descending (export_data df sel)) as [|[k0 v0] rest] eqn:Hs.
  - apply Permutation_nil_l in Hperm. split.
    + split; [intros _; by apply Hnil|done].
    + by intros ? ? ?.
  - split.
    + split; [done|]. intros Hempty. apply Hnil in Hempty.
      rewrite Hempty in Hperm. symmetry in Hperm.
      by apply Permutation_nil_cons in Hperm.
    + intros partner value share [= <- <- _]. split.
      * rewrite <- Hperm. by left.
      * intros k v Hkv. rewrite <- Hperm in Hkv.
        apply StronglySorted_inv in Hsorted as [_ Hx].
        apply elem_of_cons in Hkv as [[= -> ->]|Hkv]; [apply Qle_refl|].
        rewrite Forall_forall in Hx. by apply (Hx (k, v)).
Qed.

(** X15: for non-negative group values whose returned total is not zero,
    every Share_% given by [top_n] is a finite percentage between 0 and
    100. *)
Theorem top_n_share_percentage (aggregated : list (string * Q)) (n : nat) :
  Forall (λ kv, 0 <= kv.2) aggregated →
  ¬ sumQ (Value <$> top_n n aggregated) == 0 →
  Forall (λ t, ∃ q, Share t = Fin q ∧ 0 <= q ∧ q <= 100) (top_n n aggregated).
Proof.
  intros Hagg Hne. apply Forall_forall. intros t Ht.
  unfold top_n in *. rewrite ranked_values in Hne.
  rewrite (ranked_share _ _ Ht), share_percent_finite by done.
  assert (Forall (λ kv, 0 <= kv.2) (nlargest n aggregated)) as Htop.
  { apply Forall_forall. intros kv Hkv. apply elem_of_nlargest in Hkv.
    rewrite Forall_forall in Hagg. by apply Hagg. }
  assert (0 <= Value t ∧ Value t <= sumQ (nlargest n aggregated).*2) as [Hlo Hhi].
  { rewrite <- (ranked_values (nlargest n aggregated)).
    assert (Forall (λ v, 0 <= v) (Value <$> ranked (nlargest n aggregated)))
      as Hvals by (rewrite ranked_values; by apply Forall_fmap).
    apply list_elem_of_fmap_2 with (f := Value) in Ht.
    revert Ht Hvals. generalize (Value t) as v.
    generalize (Value <$> ranked (nlargest n aggregated)) as vs.
    induction vs as [|w vs IH]; intros v Hv Hvs; [by apply elem_of_nil in Hv|].
    apply Forall_cons in Hvs as [Hw Hvs]. rewrite sumQ_cons.
    pose proof (sumQ_nonneg vs Hvs).
    apply elem_of_cons in Hv as [->|Hv]; [split; lra|].
    destruct (IH v Hv Hvs). split; lra. }
  set (s := sumQ (nlargest n aggregated).*2) in *.
  assert (0 < s) as Hs.
  { destruct (Qlt_le_dec 0 s); [done|]. destruct Hne. lra. }
  assert (0 <= Value t / s * 100 ∧ Value t / s * 100 <= 100) as [Hq0 Hq1].
  { assert (0 <= Value t / s) by (apply Qle_shift_div_l; lra).
    assert (Value t / s <= 1) by (apply Qle_shift_div_r; lra).
    split; lra. }
  eexists. split; [done|]. split; [by apply round_nonneg|].
  rewrite round_2. destruct (rint_bound (Value t / s * 100 * 100)) as [_ Hr].
  assert (inject_Z (rint (Value t / s * 100 * 100)) < inject_Z 10001) as Hlt
    by (change (inject_Z 10001) with 10001; lra).
  rewrite <- Zlt_Qlt in Hlt.
  apply Qle_shift_div_r; [reflexivity|].
  change (100 * 100) with (inject_Z 10000). rewrite <- Zle_Qle. lia.
Qed.

Lemma top_n_share_percentage_witness :
  Forall (λ t, ∃ q, Share t = Fin q ∧ 0 <= q ∧ q <= 100)
    (top_n 1 [("Kenya", 300); ("Uganda", 100)]).
Proof.
  apply top_n_share_percentage.
  - repeat constructor; vm_compute; discriminate.
  - vm_compute. discriminate.
Defined.

End TopPartners.

(** ** The control panel *)

Section ControlPanel.
Import Dashboard Page.

Lemma unique_from {A} `{EqDecision A} (l seen : list A) :
  NoDup seen →
  NoDup (foldl (λ seen x, if decide (x ∈ seen) then seen else (seen ++ [x])%list) seen l)
  ∧ ∀ y, y ∈ foldl (λ seen x, if decide (x ∈ seen) then seen else (seen ++ [x])%list)
               seen l
         ↔ y ∈ seen ∨ y ∈ l.
Proof.
  revert seen. induction l as [|x l IH]; intros seen Hseen; simpl.
  - split; [done|]. intros y. rewrite elem_of_nil. tauto.
  - destruct (decide (x ∈ seen)) as [Hx|Hx].
    + destruct (IH seen Hseen) as [Hnd Hin]. split; [done|].
      intros y. rewrite Hin, elem_of_cons. split; [tauto|].
      intros [?|[->|?]]; tauto.
    + destruct (IH (seen ++ [x])%list) as [Hnd Hin].
      { apply NoDup_app. split; [done|]. split; [|apply NoDup_singleton].
        intros y Hy Hyx. apply list_elem_of_singleton in Hyx as ->. done. }
      split; [done|]. intros y.
      rewrite Hin, elem_of_app, list_elem_of_singleton, elem_of_cons. tauto.
Qed.

Lemma NoDup_unique {A} `{EqDecision A} (l : list A) : NoDup (unique l).
Proof. apply unique_from. constructor. Qed.

Lemma elem_of_unique {A} `{EqDecision A} (l : list A) y : y ∈ unique l ↔ y ∈ l.
Proof.
  unfold unique. destruct (unique_from l []) as [_ Hin]; [constructor|].
  rewrite Hin, elem_of_nil. tauto.
Qed.

Lemma years_sorted df : StronglySorted (λ y1 y2, y2 < y1)%Z (years df).
Proof.
  assert (StronglySorted (λ y1 y2, Z.geb y1 y2 = true) (years df)) as Hs.
  { apply stable_sort_StronglySorted.
    - intros x y. rewrite !Z.geb_le. lia.
    - intros x y z. rewrite !Z.geb_le. lia. }
  apply StronglySorted_NoDup_strict in Hs.
  - eapply StronglySorted_weaken; [|exact Hs].
    intros y1 y2 [Hge Hne]. apply Z.geb_le in Hge. lia.
  - unfold years. rewrite stable_sort_Permutation. apply NoDup_unique.
Qed.

Lemma elem_of_years df y : y ∈ years df ↔ y ∈ Year <$> df.
Proof. unfold years. by rewrite stable_sort_Permutation, elem_of_unique. Qed.

(** X16: on a table with at least one row a fresh page selects the latest
    year of the table and "All" everywhere else, and so selects exactly the
    rows of that year, of which there is at least one. *)
Theorem default_selection_latest_year (df : DataFrame) :
  df ≠ [] →
  ∃ sel, default_selection df = Some sel
    ∧ selected_quarter sel = "All" ∧ selected_month sel = "All"
    ∧ selected_flow sel = "All" ∧ selected_hs sel = ["All"]
    ∧ (∀ r, r ∈ df → Year r ≤ selected_year sel)%Z
    ∧ filtered_df df sel = filter (λ r, Year r = selected_year sel) df
    ∧ filtered_df df sel ≠ [].
Proof.
  intros Hdf. unfold default_selection, selectbox.
  pose proof (years_sorted df) as Hsorted.
  destruct (years df) as [|y ys] eqn:Hys.
  { destruct df as [|r df]; [done|].
    assert (Year r ∈ years (r :: df)) as Hin
      by (apply elem_of_years; rewrite fmap_cons; by left).
    rewrite Hys in Hin. by apply elem_of_nil in Hin. }
  simpl. eexists. split; [done|]. simpl.
  assert (y ∈ Year <$> df) as Hy by (apply elem_of_years; rewrite Hys; by left).
  assert (filtered_df df
            {| selected_year := y; selected_quarter := "All";
               selected_month := "All"; selected_flow := "All";
               selected_hs := ["All"] |}
          = filter (λ r, Year r = y) df) as Hall
    by apply filter_data_all.
  repeat (split; [done|]). split; [|split; [done|]].
  - intros r Hr.
    assert (Year r ∈ years df) as Hin
      by (apply elem_of_years, list_elem_of_fmap; by exists r).
    rewrite Hys in Hin. apply StronglySorted_inv in Hsorted as [_ Hlt].
    apply elem_of_cons in Hin as [->|Hin]; [lia|].
    rewrite Forall_forall in Hlt. specialize (Hlt _ Hin). lia.
  - rewrite Hall. apply list_elem_of_fmap in Hy as (r & -> & Hr).
    intros Hnil.
    assert (r ∈ filter (λ r0, Year r0 = Year r) df) as Hin
      by (by apply list_elem_of_filter).
    rewrite Hnil in Hin. by apply elem_of_nil in Hin.
Qed.

Lemma default_selection_latest_year_witness :
  ∃ sel, default_selection Examples.uganda_table = Some sel
    ∧ selected_quarter sel = "All" ∧ selected_month sel = "All"
    ∧ selected_flow sel = "All" ∧ selected_hs sel = ["All"]
    ∧ (∀ r, r ∈ Examples.uganda_table → Year r ≤ selected_year sel)%Z
    ∧ filtered_df Examples.uganda_table sel
      = filter (λ r, Year r = selected_year sel) Examples.uganda_table
    ∧ filtered_df Examples.uganda_table sel ≠ [].
Proof. apply default_selection_latest_year. discriminate. Defined.

Lemma quarter_months_cases q months :
  quarter_months !! q = Some months →
  (q, months) ∈ [("Q1", ["January"; "February"; "March"]);
                 ("Q2", ["April"; "May"; "June"]);
                 ("Q3", ["July"; "August"; "September"]);
                 ("Q4", ["October"; "November"; "December"])].
Proof.
  intros Hq. unfold quarter_months, Generator.dict_literal in Hq.
  cbn [foldl fst snd] in Hq.
  repeat (rewrite lookup_insert in Hq;
          destruct (decide (_ = q)) as [<-|?];
          [injection Hq as <-; repeat ((by left) || right)|]).
  by rewrite lookup_empty in Hq.
Qed.

Lemma quarter_months_disjoint q1 q2 months1 months2 m :
  quarter_months !! q1 = Some months1 → quarter_months !! q2 = Some months2 →
  m ∈ months1 → m ∈ months2 → q1 = q2.
Proof.
  intros H1 H2 Hm1 Hm2.
  apply quarter_months_cases in H1, H2.
  repeat (apply elem_of_cons in H1 as [[= -> ->]|H1]);
    try (by apply elem_of_nil in H1);
    repeat (apply elem_of_cons in H2 as [[= -> ->]|H2]);
    try (by apply elem_of_nil in H2); try done;
    repeat (apply elem_of_cons in Hm1 as [->|Hm1]);
    try (by apply elem_of_nil in Hm1);
    apply (bool_decide_pack _) in Hm2; vm_compute in Hm2; done.
Qed.

(** X17: on a table whose rows carry the quarter of their month (as
    [quarter_months] has it), choosing a month offered for the selected
    quarter makes the quarter restriction redundant, and a month of another
    quarter would select nothing. *)
Theorem month_within_quarter (df : DataFrame) (year : Z)
    (quarter month flow : string) (hs_codes months : list string) :
  Forall (λ r, ∃ ms, quarter_months !! Quarter r = Some ms ∧ Month_Name r ∈ ms) df →
  quarter_months !! quarter = Some months →
  (month ∈ months →
     filter_data df year quarter month flow hs_codes
     = filter_data df year "All" month flow hs_codes)
  ∧ (∀ quarter' months', quarter_months !! quarter' = Some months' →
       quarter' ≠ quarter → month ∈ months' →
       filter_data df year quarter month flow hs_codes = []).
Proof.
  intros Hdf Hq. rewrite Forall_forall in Hdf.
  assert (quarter ≠ "All") as HqAll by (intros ->; vm_compute in Hq; done).
  assert (∀ q ms, quarter_months !! q = Some ms → month ∈ ms → month ≠ "All")
    as HmAll.
  { intros q ms Hms Hin ->. apply quarter_months_cases in Hms.
    repeat (apply elem_of_cons in Hms as [[= -> ->]|Hms];
            [apply (bool_decide_pack _) in Hin; vm_compute in Hin; done|]).
    by apply elem_of_nil in Hms. }
  split.
  - intros Hmonth. rewrite !filter_data_selected. apply filter_ext_in.
    intros r Hr. unfold selected. split.
    { intros (Hy & _ & Hrest). split; [done|]. split; [by intros []|done]. }
    intros (Hy & _ & Hm & Hrest). split; [done|]. split; [|done].
    intros _. destruct (Hdf r Hr) as (ms & Hms & Hin).
    rewrite (Hm (HmAll _ _ Hq Hmonth)) in Hin.
    by apply (quarter_months_disjoint _ _ ms months month).
  - intros quarter' months' Hq' Hne Hmonth.
    rewrite filter_data_selected. apply filter_none.
    intros r Hr (_ & Hquarter & Hm & _).
    destruct (Hdf r Hr) as (ms & Hms & Hin).
    rewrite (Hm (HmAll _ _ Hq' Hmonth)) in Hin. rewrite (Hquarter HqAll) in Hms.
    apply Hne. by apply (quarter_months_disjoint _ _ months' ms month).
Qed.

Lemma month_within_quarter_witness :
  filter_data Examples.uganda_table 2024 "Q1" "January" "All" ["All"]
  = filter_data Examples.uganda_table 2024 "All" "January" "All" ["All"].
Proof.
  refine (proj1 (month_within_quarter Examples.uganda_table 2024 "Q1" "January"
                   "All" ["All"] ["January"; "February"; "March"] _ _) _).
  - repeat constructor;
      (exists ["January"; "February"; "March"]; split;
       [vm_compute; reflexivity|by left]).
  - vm_compute. reflexivity.
  - by left.
Defined.

End ControlPanel.

(** * Further properties of the generator *)

(** ** What a step appends *)

Section Appends.
Import Generator.
Context (np : Numpy) (Hnp : NumpySpec np).

Lemma extends_ret {A} (a : A) (Post : A → list Entry → Prop) :
  Post a [] → extends np (mret a) Post.
Proof. intros Ha s. exists a, s, []. by rewrite app_nil_r. Qed.

Lemma extends_bind {A B} (m : M np A) (k : A → M np B) Mid Post :
  extends np m Mid →
  (∀ a new1, Mid a new1 → extends np (k a) (λ b new2, Post b (new1 ++ new2)%list)) →
  extends np (m ≫= k) Post.
Proof.
  intros Hm Hk s. destruct (Hm s) as (a & s1 & new1 & Hrun & Hdata & Ha).
  destruct (Hk a new1 Ha s1) as (b & s2 & new2 & Hrun' & Hdata' & Hb).
  exists b, s2, (new1 ++ new2)%list. split; [|split; [|done]].
  - unfold mbind, M_bind. by rewrite Hrun.
  - by rewrite Hdata', Hdata, app_assoc.
Qed.

Lemma extends_weaken {A} (m : M np A) (Post Post' : A → list Entry → Prop) :
  extends np m Post → (∀ a new, Post a new → Post' a new) → extends np m Post'.
Proof.
  intros Hm Himp s. destruct (Hm s) as (a & s' & new & Hrun & Hdata & Ha).
  exists a, s', new. auto.
Qed.

Lemma extends_item {A} (o : option A) (a : A) :
  o = Some a → extends np (item np o) (λ x new, x = a ∧ new = []).
Proof. intros -> s. exists a, s, []. by rewrite app_nil_r. Qed.

Lemma extends_randint low high :
  (low < high)%Z →
  extends np (np_random_randint np low high)
    (λ x new, (low ≤ x < high)%Z ∧ new = []).
Proof.
  intros Hlt s. unfold np_random_randint.
  pose proof (randint_range np Hnp low high (rand s) Hlt) as Hr.
  destruct (randint np low high (rand s)) as [x r].
  eexists _, _, []. simpl. by rewrite app_nil_r.
Qed.

Lemma extends_choice n size :
  (0 ≤ size ≤ Z.of_nat n)%Z →
  extends np (np_random_choice np n size)
    (λ l new, (∃ r, l = (choice np n (Z.to_nat size) r).1)
              ∧ Forall (λ i, (i < n)%nat) l ∧ new = []).
Proof.
  intros Hsize s. unfold np_random_choice. rewrite decide_True by done.
  pose proof (choice_range np Hnp n (Z.to_nat size) (rand s)) as Hr.
  destruct (choice np n (Z.to_nat size) (rand s)) as [l r] eqn:Hc.
  eexists _, _, []. simpl. rewrite app_nil_r. split; [done|]. split; [done|].
  split; [exists (rand s); by rewrite Hc|]. split; [|done]. apply Hr. lia.
Qed.

Lemma extends_uniform low high :
  (low <= high)%Q →
  extends np (np_random_uniform np low high)
    (λ x new, ((low <= x)%Q ∧ (x <= high)%Q) ∧ new = []).
Proof.
  intros Hle s. unfold np_random_uniform.
  pose proof (uniform_range np Hnp low high (rand s) Hle) as Hr.
  destruct (uniform np low high (rand s)) as [x r].
  eexists _, _, []. simpl. by rewrite app_nil_r.
Qed.

Lemma extends_append e :
  extends np (data_append np e) (λ _ new, new = [e]).
Proof. intros s. by eexists _, _, [e]. Qed.

Lemma extends_for_each {A} (l : list A) (body : A → M np ())
    (Each : A → list Entry → Prop) :
  (∀ x, x ∈ l → extends np (body x) (λ _ new, Each x new)) →
  extends np (for_each np l body)
    (λ _ new, ∃ chunks, new = concat chunks ∧ Forall2 Each l chunks).
Proof.
  induction l as [|x l IH]; intros Hbody; simpl.
  - apply extends_ret. by exists [].
  - eapply extends_bind; [apply Hbody; by left|].
    intros [] new1 Hnew1. eapply extends_weaken.
    + apply IH. intros y Hy. apply Hbody. by right.
    + intros _ new2 (chunks & -> & Hchunks).
      exists (new1 :: chunks). split; [done|]. by constructor.
Qed.

(** A step that only appends keeps the invariant its appended entries have. *)
Lemma extends_keeps {A} Inv (m : M np A) (Post : A → Prop) :
  extends np m (λ a new, Forall Inv new ∧ Post a) → keeps np Inv m Post.
Proof.
  intros Hm s Hs. destruct (Hm s) as (a & s' & new & Hrun & Hdata & Hnew & Ha).
  exists a, s'. split; [done|]. split; [|done].
  rewrite Hdata. by apply Forall_app.
Qed.

Lemma product_entry_built year month quarter flow partner products prod_idx
    hs_code hs_desc :
  products !! prod_idx = Some (hs_code, hs_desc) →
  extends np (product_entry np year month quarter flow partner products prod_idx)
    (λ _ new, ∃ e, new = [e]
                   ∧ built np year month quarter flow partner hs_code hs_desc e).
Proof.
  intros Hprod. unfold product_entry.
  eapply extends_bind; [apply extends_item; exact Hprod|].
  intros ? ? [-> ->].
  eapply extends_bind; [apply extends_uniform; lra|].
  intros base ? [[Hbase0 Hbase1] ->].
  eapply (extends_bind _ _
    (λ p new, new = []
       ∧ (flow = "Export" ∧ p.1 = 1.0%Q
            ∧ (50000 <= p.2)%Q ∧ (p.2 <= 5000000)%Q
          ∨ flow = "Import" ∧ p.1 = 1.3%Q
            ∧ (50000 <= p.2)%Q ∧ (p.2 <= 5000000)%Q
          ∨ flow ≠ "Export" ∧ flow ≠ "Import" ∧ p.1 = 0.3%Q
            ∧ (10000 <= p.2)%Q ∧ (p.2 <= 500000)%Q))).
  { destruct (decide (flow = "Export")) as [Hexp|Hexp].
    { apply extends_ret. split; [done|]. left. by cbn [fst snd]. }
    destruct (decide (flow = "Import")) as [Himp|Himp].
    { apply extends_ret. split; [done|]. right. left. by cbn [fst snd]. }
    eapply extends_bind; [apply extends_uniform; lra|].
    intros base' ? [[Hb0 Hb1] ->]. apply extends_ret.
    split; [done|]. right. right. by cbn [fst snd]. }
  intros [value_multiplier base_value] ? [-> Hflow]. cbn [fst snd] in Hflow.
  eapply extends_bind; [apply extends_uniform; lra|].
  intros price ? [[Hprice0 Hprice1] ->].
  eapply extends_weaken; [apply extends_append|].
  intros _ new ->. eexists. split; [done|].
  exists base_value, value_multiplier, price. done.
Qed.


Lemma built_fields year month quarter flow partner hs_code hs_desc e :
  built np year month quarter flow partner hs_code hs_desc e →
  Year e = year ∧ Month e = month ∧ Quarter e = quarter ∧ Flow e = flow
  ∧ Partner_Country e = partner ∧ HS_Code e = hs_code
  ∧ HS_Description e = hs_desc.
Proof. intros (base & mult & price & _ & _ & _ & ->). done. Qed.

Lemma product_entry_made year month flow partner prod_idx :
  year ∈ years → month ∈ months → flow ∈ flows →
  partner ∈ take 20 (partners_of flow) →
  (prod_idx < length (catalog_of flow))%nat →
  extends np
    (product_entry np year month (quarter_of_month month) flow partner
       (catalog_of flow) prod_idx)
    (λ _ new, ∃ e hs_code hs_desc,
       new = [e] ∧ catalog_of flow !! prod_idx = Some (hs_code, hs_desc)
       ∧ built np year month (quarter_of_month month) flow partner
           hs_code hs_desc e
       ∧ made np e).
Proof.
  intros Hyear Hmonth Hflow Hpartner Hidx.
  destruct (lookup_lt_is_Some_2 _ prod_idx Hidx) as [[hs_code hs_desc] Hprod].
  eapply extends_weaken; [by apply product_entry_built|].
  intros _ new (e & -> & He). exists e, hs_code, hs_desc.
  split; [done|]. split; [done|]. split; [done|].
  exists year, month, flow, partner, hs_code, hs_desc.
  repeat (split; [done|]). split; [|done].
  apply list_elem_of_lookup. by exists prod_idx.
Qed.

(** The loops of [generate], for an invariant that the entry of every
    product has. *)
Lemma generate_keeps_made : keeps np (made np) (generate np) (λ _, True).
Proof.
  unfold generate.
  apply keeps_for_each. intros year Hyear.
  apply keeps_for_each. intros month Hmonth.
  assert (1 ≤ month ≤ 12)%Z as Hrange.
  { unfold months in Hmonth. apply elem_of_seqZ in Hmonth. lia. }
  eapply keeps_bind; [apply keeps_item, quarters_month, Hrange|]. intros ? ->.
  apply keeps_for_each. intros flow Hflow.
  eapply (keeps_bind _ _ _ _ (λ p, p = (partners_of flow, catalog_of flow))).
  { unfold partners_of. destruct (decide (flow = "Export")) as [->|Hne].
    - eapply keeps_bind; [apply keeps_item, catalog_of_Export|].
      intros ? ->. by apply keeps_ret.
    - eapply keeps_bind; [apply keeps_item, (catalog_of_other flow Hne)|].
      intros ? ->. by apply keeps_ret. }
  intros ? ->.
  apply keeps_for_each. intros partner Hpartner.
  eapply keeps_bind; [by apply keeps_randint|]. intros num_products Hnum.
  cbv beta in Hnum.
  eapply keeps_bind;
    [apply keeps_choice; [done|rewrite catalog_of_length; lia]|].
  intros selected Hselected.
  apply keeps_for_each. intros prod_idx Hidx.
  rewrite Forall_forall in Hselected.
  apply extends_keeps. eapply extends_weaken.
  - apply product_entry_made; auto.
  - intros _ new (e & ? & ? & -> & _ & _ & He). split; [|done]. by constructor.
Qed.

Lemma dataset_made : ∃ d, dataset np = Some d ∧ Forall (made np) d.
Proof.
  unfold dataset.
  destruct (generate_keeps_made {| rand := seed np 42; data := [] |})
    as ([] & s & -> & Hs & _); [constructor|].
  by exists (data s).
Qed.

End Appends.

(** ** Values and quantities *)

Section Values.
Import Generator.
#[local] Open Scope Q_scope.

Lemma Qmult_between a1 a2 b1 b2 x y :
  0 <= a1 → a1 <= x → x <= a2 → 0 <= b1 → b1 <= y → y <= b2 →
  a1 * b1 <= x * y ∧ x * y <= a2 * b2.
Proof. intros. split; nra. Qed.

Lemma round_2_between (lo hi : Z) q :
  inject_Z lo <= q → q <= inject_Z hi →
  inject_Z lo <= round q 2 ∧ round q 2 <= inject_Z hi.
Proof.
  intros Hlo Hhi. rewrite round_2.
  destruct (rint_bound (q * 100)) as [Hr0 Hr1].
  assert (inject_Z (lo * 100 - 1) < inject_Z (rint (q * 100))) as H0.
  { unfold Zminus. rewrite inject_Z_plus, inject_Z_mult.
    change (inject_Z 100) with 100. change (inject_Z (- (1))) with (- (1)). lra. }
  assert (inject_Z (rint (q * 100)) < inject_Z (hi * 100 + 1)) as H1.
  { rewrite inject_Z_plus, inject_Z_mult.
    change (inject_Z 100) with 100. change (inject_Z 1) with 1. lra. }
  rewrite <- Zlt_Qlt in H0, H1.
  split.
  - apply Qle_shift_div_l; [reflexivity|].
    change (inject_Z lo * 100) with (inject_Z lo * inject_Z 100).
    rewrite <- inject_Z_mult, <- Zle_Qle. lia.
  - apply Qle_shift_div_r; [reflexivity|].
    change (inject_Z hi * 100) with (inject_Z hi * inject_Z 100).
    rewrite <- inject_Z_mult, <- Zle_Qle. lia.
Qed.

Lemma year_factor_range year :
  year ∈ years →
  1 <= 1 + inject_Z (year - 2021) * 0.08
  ∧ 1 + inject_Z (year - 2021) * 0.08 <= 1.24.
Proof.
  intros Hy. unfold years in Hy.
  repeat (apply elem_of_cons in Hy as [->|Hy];
          [split; vm_compute; discriminate|]).
  by apply elem_of_nil in Hy.
Qed.

Context (np : Numpy) (Hnp : NumpySpec np).

(** The value before rounding and the unit price of a built entry. *)
Lemma built_value year month quarter flow partner hs_code hs_desc e :
  year ∈ years →
  built np year month quarter flow partner hs_code hs_desc e →
  ∃ trade_value price,
    (flow = "Export" ∧ 45000 <= trade_value ∧ trade_value <= 6820000
     ∨ flow = "Import" ∧ 58500 <= trade_value ∧ trade_value <= 8866000
     ∨ flow ≠ "Export" ∧ flow ≠ "Import"
       ∧ 2700 <= trade_value ∧ trade_value <= 204600)
    ∧ 2 <= price ∧ price <= 20
    ∧ Trade_Value_USD e = round trade_value 2
    ∧ Quantity_KG e = fround (truediv trade_value price) 2.
Proof.
  intros Hyear (base & mult & price & Hflow & Hp0 & Hp1 & ->).
  exists (base * mult * (1 + inject_Z (year - 2021) * 0.08)
          * (1 + 0.1 * sin np (inject_Z month * pi np / 6))), price.
  split; [|done].
  destruct (year_factor_range year Hyear) as [Hy0 Hy1].
  destruct (sin_range np Hnp (inject_Z month * pi np / 6)) as [Hs0 Hs1].
  set (yf := 1 + inject_Z (year - 2021) * 0.08) in *.
  set (sf := 1 + 0.1 * sin np (inject_Z month * pi np / 6)).
  assert (0.9 <= sf ∧ sf <= 1.1) as [Hsf0 Hsf1] by (subst sf; split; lra).
  destruct Hflow as [(-> & -> & Hb0 & Hb1)|[(-> & -> & Hb0 & Hb1)
                    |(Hne1 & Hne2 & -> & Hb0 & Hb1)]].
  - left. split; [done|].
    destruct (Qmult_between 50000 5000000 1 1 base 1.0) as [? ?]; try lra.
    destruct (Qmult_between (50000 * 1) (5000000 * 1) 1 1.24 (base * 1.0) yf)
      as [? ?]; try lra.
    destruct (Qmult_between (50000 * 1 * 1) (5000000 * 1 * 1.24) 0.9 1.1
                (base * 1.0 * yf) sf) as [? ?]; try lra.
  - right. left. split; [done|].
    destruct (Qmult_between 50000 5000000 1.3 1.3 base 1.3) as [? ?]; try lra.
    destruct (Qmult_between (50000 * 1.3) (5000000 * 1.3) 1 1.24 (base * 1.3) yf)
      as [? ?]; try lra.
    destruct (Qmult_between (50000 * 1.3 * 1) (5000000 * 1.3 * 1.24) 0.9 1.1
                (base * 1.3 * yf) sf) as [? ?]; try lra.
  - right. right. split; [done|]. split; [done|].
    destruct (Qmult_between 10000 500000 0.3 0.3 base 0.3) as [? ?]; try lra.
    destruct (Qmult_between (10000 * 0.3) (500000 * 0.3) 1 1.24 (base * 0.3) yf)
      as [? ?]; try lra.
    destruct (Qmult_between (10000 * 0.3 * 1) (500000 * 0.3 * 1.24) 0.9 1.1
                (base * 0.3 * yf) sf) as [? ?]; try lra.
Qed.

Lemma made_value e :
  made np e →
  ∃ trade_value price,
    (Flow e = "Export" ∧ 45000 <= trade_value ∧ trade_value <= 6820000
     ∨ Flow e = "Import" ∧ 58500 <= trade_value ∧ trade_value <= 8866000
     ∨ Flow e = "Re-export"
       ∧ 2700 <= trade_value ∧ trade_value <= 204600)
    ∧ 2 <= price ∧ price <= 20
    ∧ Trade_Value_USD e = round trade_value 2
    ∧ Quantity_KG e = fround (truediv trade_value price) 2.
Proof.
  intros (year & month & flow & partner & code & desc & Hyear & _ & Hflow
          & _ & _ & Hbuilt).
  destruct (built_value _ _ _ _ _ _ _ _ Hyear Hbuilt)
    as (tv & price & Hrange & Hrest).
  apply built_fields in Hbuilt as (_ & _ & _ & -> & _).
  exists tv, price. split; [|done].
  destruct Hrange as [?|[?|(Hne1 & Hne2 & ?)]]; [by left|by right; left|].
  right. right. split; [|done].
  unfold flows in Hflow.
  repeat (apply elem_of_cons in Hflow as [?|Hflow]; [done|]).
  by apply elem_of_nil in Hflow.
Qed.

End Values.

Section ValueBounds.
Import Generator.
#[local] Open Scope Q_scope.

(** X18: every generated trade value lies in the range of its flow: 45,000
    to 6,820,000 for an Export, 58,500 to 8,866,000 for an Import and 2,700
    to 204,600 for a Re-export; so every value is at least 2,700. *)
Theorem trade_value_ranges (np : Numpy) :
  NumpySpec np →
  ∃ d, dataset np = Some d
    ∧ Forall (λ e,
        (Flow e = "Export" →
           45000 <= Trade_Value_USD e ∧ Trade_Value_USD e <= 6820000)
        ∧ (Flow e = "Import" →
             58500 <= Trade_Value_USD e ∧ Trade_Value_USD e <= 8866000)
        ∧ (Flow e = "Re-export" →
             2700 <= Trade_Value_USD e ∧ Trade_Value_USD e <= 204600)
        ∧ 2700 <= Trade_Value_USD e) d.
Proof.
  intros Hnp. destruct (dataset_made np Hnp) as (d & Hd & Hmade).
  exists d. split; [done|]. eapply Forall_impl; [exact Hmade|].
  intros e He.
  destruct (made_value np Hnp e He) as (tv & price & Hrange & _ & _ & -> & _).
  destruct Hrange as [(Hf & H0 & H1)|[(Hf & H0 & H1)|(Hf & H0 & H1)]];
    rewrite Hf.
  - pose proof (round_2_between 45000 6820000 tv H0 H1) as [? ?].
    unfold inject_Z in *; repeat split; try discriminate; intros; lra.
  - pose proof (round_2_between 58500 8866000 tv H0 H1) as [? ?].
    unfold inject_Z in *; repeat split; try discriminate; intros; lra.
  - pose proof (round_2_between 2700 204600 tv H0 H1) as [? ?].
    unfold inject_Z in *; repeat split; try discriminate; intros; lra.
Qed.

Lemma trade_value_ranges_witness :
  ∃ d, dataset Examples.lcg = Some d
    ∧ Forall (λ e,
        (Flow e = "Export" →
           45000 <= Trade_Value_USD e ∧ Trade_Value_USD e <= 6820000)
        ∧ (Flow e = "Import" →
             58500 <= Trade_Value_USD e ∧ Trade_Value_USD e <= 8866000)
        ∧ (Flow e = "Re-export" →
             2700 <= Trade_Value_USD e ∧ Trade_Value_USD e <= 204600)
        ∧ 2700 <= Trade_Value_USD e) d.
Proof. exact (trade_value_ranges Examples.lcg lcg_spec). Defined.

(** X19: the unit price is never zero, so every generated quantity is a
    finite number, between 135 and 4,433,000 kg. *)
Theorem quantity_finite (np : Numpy) :
  NumpySpec np →
  ∃ d, dataset np = Some d
    ∧ Forall (λ e, ∃ q, Quantity_KG e = Fin q ∧ 135 <= q ∧ q <= 4433000) d.
Proof.
  intros Hnp. destruct (dataset_made np Hnp) as (d & Hd & Hmade).
  exists d. split; [done|]. eapply Forall_impl; [exact Hmade|].
  intros e He.
  destruct (made_value np Hnp e He)
    as (tv & price & Hrange & Hp0 & Hp1 & _ & ->).
  rewrite truediv_finite by lra. simpl. eexists. split; [done|].
  assert (2700 <= tv ∧ tv <= 8866000) as [Ht0 Ht1]
    by (destruct Hrange as [?|[?|?]]; split; lra).
  apply (round_2_between 135 4433000).
  - apply Qle_shift_div_l; [lra|].
    change (inject_Z 135) with 135. nra.
  - apply Qle_shift_div_r; [lra|].
    change (inject_Z 4433000) with 4433000. nra.
Qed.

Lemma quantity_finite_witness :
  ∃ d, dataset Examples.lcg = Some d
    ∧ Forall (λ e, ∃ q, Quantity_KG e = Fin q ∧ 135 <= q ∧ q <= 4433000) d.
Proof. exact (quantity_finite Examples.lcg lcg_spec). Defined.

End ValueBounds.

(** ** Partners, products and lookups *)

Section Catalogs.
Import Generator.

Lemma catalog_of_functional flow code desc1 desc2 :
  (code, desc1) ∈ catalog_of flow → (code, desc2) ∈ catalog_of flow →
  desc1 = desc2.
Proof.
  assert (NoDup (catalog_of flow).*1) as Hnd.
  { unfold catalog_of. destruct (decide (flow = "Export"));
      apply (bool_decide_unpack _); vm_compute; exact I. }
  revert desc1 desc2. generalize (catalog_of flow) Hnd. clear.
  induction l as [|[c d] l IH]; intros Hnd desc1 desc2 H1 H2.
  { by apply elem_of_nil in H1. }
  rewrite fmap_cons in Hnd. apply NoDup_cons in Hnd as [Hc Hnd]. simpl in Hc.
  apply elem_of_cons in H1 as [Heq1|H1], H2 as [Heq2|H2].
  - congruence.
  - injection Heq1 as -> ->. destruct Hc.
    apply list_elem_of_fmap. by exists (c, desc2).
  - injection Heq2 as -> ->. destruct Hc.
    apply list_elem_of_fmap. by exists (c, desc1).
  - by apply IH.
Qed.

Lemma catalog_of_same_kind flow1 flow2 :
  (flow1 = "Export" ↔ flow2 = "Export") → catalog_of flow1 = catalog_of flow2.
Proof.
  intros Hkind. unfold catalog_of.
  destruct (decide (flow1 = "Export")) as [H1|H1],
           (decide (flow2 = "Export")) as [H2|H2]; try done.
  - destruct H2. by apply Hkind.
  - destruct H1. by apply Hkind.
Qed.

Lemma partners_mapped :
  Forall (λ p, is_Some (continent_map !! p)
               ∧ is_Some (regional_block_map !! p)
               ∧ default "Other" (regional_block_map !! p)
                 ∈ ["EAC"; "SADC"; "COMESA"; "EU"; "Other"])
    (take 20 export_partners ++ take 20 import_partners)%list.
Proof. apply (bool_decide_unpack _). vm_compute. exact I. Qed.

(** X20: every entry has its year among the four years and its flow among
    the three flows, and the entries of the Export flow draw their partner
    from the first twenty export partners and their product from the Export
    catalog. *)
Theorem export_entries_use_export_lists (np : Numpy) :
  NumpySpec np →
  ∃ d catalog, dataset np = Some d
    ∧ hs_products !! "Export" = Some catalog
    ∧ Forall (λ e,
        Year e ∈ years ∧ Flow e ∈ flows
        ∧ (Flow e = "Export" →
             Partner_Country e ∈ take 20 export_partners
             ∧ (HS_Code e, HS_Description e) ∈ catalog)) d.
Proof.
  intros Hnp. destruct (dataset_generated np Hnp) as (d & Hd & Hgen).
  exists d, (catalog_of "Export").
  split; [done|]. split; [apply catalog_of_Export|].
  eapply Forall_impl; [exact Hgen|]. intros e He.
  split; [apply He|]. split; [apply He|]. intros Hflow.
  pose proof (generated_partner e He) as Hpartner.
  pose proof (generated_product e He) as Hproduct.
  rewrite Hflow in Hpartner, Hproduct. done.
Qed.

Lemma export_entries_use_export_lists_witness :
  ∃ d catalog, dataset Examples.lcg = Some d
    ∧ hs_products !! "Export" = Some catalog
    ∧ Forall (λ e,
        Year e ∈ years ∧ Flow e ∈ flows
        ∧ (Flow e = "Export" →
             Partner_Country e ∈ take 20 export_partners
             ∧ (HS_Code e, HS_Description e) ∈ catalog)) d.
Proof. exact (export_entries_use_export_lists Examples.lcg lcg_spec). Defined.

(** X21: among the entries of one catalog (Export on one side, Import and
    Re-export on the other) the HS code determines the HS description. *)
Theorem hs_description_of_code (np : Numpy) :
  NumpySpec np →
  ∃ d, dataset np = Some d
    ∧ ∀ e1 e2, e1 ∈ d → e2 ∈ d →
        (Flow e1 = "Export" ↔ Flow e2 = "Export") →
        HS_Code e1 = HS_Code e2 → HS_Description e1 = HS_Description e2.
Proof.
  intros Hnp. destruct (dataset_generated np Hnp) as (d & Hd & Hgen).
  exists d. split; [done|]. rewrite Forall_forall in Hgen.
  intros e1 e2 H1 H2 Hkind Hcode.
  pose proof (generated_product e1 (Hgen e1 H1)) as Hp1.
  pose proof (generated_product e2 (Hgen e2 H2)) as Hp2.
  rewrite (catalog_of_same_kind _ _ Hkind), Hcode in Hp1.
  by eapply catalog_of_functional.
Qed.

Lemma hs_description_of_code_witness :
  ∃ d, dataset Examples.lcg = Some d
    ∧ ∀ e1 e2, e1 ∈ d → e2 ∈ d →
        (Flow e1 = "Export" ↔ Flow e2 = "Export") →
        HS_Code e1 = HS_Code e2 → HS_Description e1 = HS_Description e2.
Proof. exact (hs_description_of_code Examples.lcg lcg_spec). Defined.

(** X22: the partner of every entry is a key of both lookups, so neither
    default is ever taken; and the regional block of an entry is one of EAC,
    SADC, COMESA, EU and Other: the partners of the block ECOWAS are beyond
    the first twenty of both lists. *)
Theorem lookup_defaults_never_taken (np : Numpy) :
  NumpySpec np →
  ∃ d, dataset np = Some d
    ∧ Forall (λ e,
        continent_map !! Partner_Country e = Some (Partner_Continent e)
        ∧ regional_block_map !! Partner_Country e = Some (Regional_Block e)
        ∧ Regional_Block e ∈ ["EAC"; "SADC"; "COMESA"; "EU"; "Other"]) d.
Proof.
  intros Hnp. destruct (dataset_generated np Hnp) as (d & Hd & Hgen).
  exists d. split; [done|]. eapply Forall_impl; [exact Hgen|]. intros e He.
  pose proof (generated_partner e He) as Hpartner.
  assert (Partner_Country e
          ∈ (take 20 export_partners ++ take 20 import_partners)%list) as Hin.
  { apply elem_of_app. unfold partners_of in Hpartner.
    destruct (decide (Flow e = "Export")); [by left|by right]. }
  pose proof partners_mapped as Hmapped. rewrite Forall_forall in Hmapped.
  destruct (Hmapped _ Hin) as ([c Hc] & [b Hb] & Hblock).
  rewrite (generated_continent e He), (generated_block e He).
  rewrite Hb in Hblock. rewrite Hc, Hb. done.
Qed.

Lemma lookup_defaults_never_taken_witness :
  ∃ d, dataset Examples.lcg = Some d
    ∧ Forall (λ e,
        continent_map !! Partner_Country e = Some (Partner_Continent e)
        ∧ regional_block_map !! Partner_Country e = Some (Regional_Block e)
        ∧ Regional_Block e ∈ ["EAC"; "SADC"; "COMESA"; "EU"; "Other"]) d.
Proof. exact (lookup_defaults_never_taken Examples.lcg lcg_spec). Defined.

End Catalogs.

(** ** The DataFrame *)

Section DataFrame.
Import Generator.

Lemma add_columns_generated e :
  generated e →
  ∃ name ms,
    add_columns e
    = Some {| entry := e; Month_Name := Some name;
              Date := (Year e, Month e, 1%Z) |}
    ∧ month_names !! Month e = Some name
    ∧ Page.quarter_months !! Quarter e = Some ms ∧ name ∈ ms.
Proof.
  intros He. pose proof (generated_month e He) as Hmonth.
  pose proof (generated_quarter e He) as Hquarter.
  unfold add_columns, to_datetime. rewrite decide_True by done. simpl.
  assert (Month e ∈ [1; 2; 3; 4; 5; 6; 7; 8; 9; 10; 11; 12]%Z) as Hin.
  { change [1; 2; 3; 4; 5; 6; 7; 8; 9; 10; 11; 12]%Z with (seqZ 1 12).
    apply elem_of_seqZ. lia. }
  revert Hquarter. generalize (Quarter e) as quarter.
  generalize dependent (Month e). intros month _ Hin quarter Hquarter.
  repeat (apply elem_of_cons in Hin as [->|Hin];
    [vm_compute in Hquarter; injection Hquarter as <-;
     eexists _, _; split; [vm_compute; reflexivity|];
     split; [vm_compute; reflexivity|];
     split; [vm_compute; reflexivity|];
     repeat ((by left) || right)|]).
  by apply elem_of_nil in Hin.
Qed.

(** X23: building the DataFrame from the generated entries raises nothing;
    its rows are the entries, each once, every row dated the first day of
    its month and named after its month, and that name is one of the months
    that the dashboard lists for the quarter of the row. *)
Theorem dataframe_of_dataset (np : Numpy) :
  NumpySpec np →
  ∃ d rows, dataset np = Some d ∧ dataframe d = Some rows
    ∧ entry <$> rows ≡ₚ d
    ∧ Forall (λ r,
        Date r = (Year (entry r), Month (entry r), 1%Z)
        ∧ ∃ name ms,
            Month_Name r = Some name
            ∧ month_names !! Month (entry r) = Some name
            ∧ Page.quarter_months !! Quarter (entry r) = Some ms
            ∧ name ∈ ms) rows.
Proof.
  intros Hnp. destruct (dataset_generated np Hnp) as (d & Hd & Hgen).
  assert (∃ rows0, mapM add_columns d = Some rows0) as [rows0 Hrows0].
  { apply mapM_is_Some. eapply Forall_impl; [exact Hgen|]. intros e He.
    destruct (add_columns_generated e He) as (? & ? & Hadd & _).
    unfold compose. rewrite Hadd. by eexists. }
  exists d, (stable_sort row_leb rows0).
  split; [done|]. split; [unfold dataframe; by rewrite Hrows0|].
  apply mapM_Some in Hrows0.
  assert (entry <$> rows0 = d
          ∧ Forall (λ r,
              Date r = (Year (entry r), Month (entry r), 1%Z)
              ∧ ∃ name ms,
                  Month_Name r = Some name
                  ∧ month_names !! Month (entry r) = Some name
                  ∧ Page.quarter_months !! Quarter (entry r) = Some ms
                  ∧ name ∈ ms) rows0) as [Hentries Hrows].
  { clear Hd. induction Hrows0 as [|e r d rows0 Hr _ IH]; [done|].
    apply Forall_cons in Hgen as [He Hgen]. destruct (IH Hgen) as [Hes Hall].
    destruct (add_columns_generated e He) as (name & ms & Hadd & Hname & Hms & Hin).
    rewrite Hadd in Hr. injection Hr as <-.
    split; [rewrite fmap_cons; simpl; by f_equal|].
    constructor; [|done]. split; [done|]. by exists name, ms. }
  split.
  - by rewrite (stable_sort_Permutation row_leb rows0), Hentries.
  - by rewrite (stable_sort_Permutation row_leb rows0).
Qed.

Lemma dataframe_of_dataset_witness :
  ∃ d rows, dataset Examples.lcg = Some d ∧ dataframe d = Some rows
    ∧ entry <$> rows ≡ₚ d
    ∧ Forall (λ r,
        Date r = (Year (entry r), Month (entry r), 1%Z)
        ∧ ∃ name ms,
            Month_Name r = Some name
            ∧ month_names !! Month (entry r) = Some name
            ∧ Page.quarter_months !! Quarter (entry r) = Some ms
            ∧ name ∈ ms) rows.
Proof. exact (dataframe_of_dataset Examples.lcg lcg_spec). Defined.

End DataFrame.

(** ** How many entries, and no observation twice *)

Section Chunks.
Import Generator.
Context (np : Numpy) (Hnp : NumpySpec np) (Hchoice : NumpyChoiceSpec np).

Lemma chunk_weaken lo hi lo' hi' (fixed fixed' : Entry → Prop) new :
  (lo' ≤ lo)%nat → (hi ≤ hi')%nat → (∀ e, fixed e → fixed' e) →
  chunk np lo hi fixed new → chunk np lo' hi' fixed' new.
Proof.
  intros Hlo Hhi Hfixed (Hlen & Hnd & Hall).
  split; [lia|]. split; [done|].
  eapply Forall_impl; [exact Hall|]. intros e [? ?]. auto.
Qed.

Lemma chunk_concat {X Y} (f : X → Y) (g : Entry → Y) (l : list X)
    (chunks : list (list Entry)) lo hi (fixed : Entry → Prop) :
  NoDup (f <$> l) →
  (∀ e1 e2, observation e1 = observation e2 → g e1 = g e2) →
  Forall2 (λ x new, chunk np lo hi (λ e, fixed e ∧ g e = f x) new) l chunks →
  chunk np (length l * lo) (length l * hi) fixed (concat chunks).
Proof.
  intros Hnd Hg Hchunks.
  enough (chunk np (length l * lo) (length l * hi) fixed (concat chunks)
          ∧ Forall (λ e, g e ∈ f <$> l) (concat chunks)) as [? _]; [done|].
  induction Hchunks as [|x new l chunks (Hlen & Hobs & Hall) _ IH]; simpl.
  { split; [|done]. split; [simpl; lia|]. split; [constructor|done]. }
  rewrite fmap_cons in Hnd. apply NoDup_cons in Hnd as [Hx Hnd].
  destruct (IH Hnd) as [(Hlen' & Hobs' & Hall') Hin]. split.
  - split; [rewrite length_app; lia|]. split.
    + rewrite fmap_app. apply NoDup_app. split; [done|]. split; [|done].
      intros o Ho1 Ho2.
      apply list_elem_of_fmap in Ho1 as (e1 & -> & He1).
      apply list_elem_of_fmap in Ho2 as (e2 & Heq & He2).
      rewrite Forall_forall in Hall, Hin.
      destruct (Hall e1 He1) as [[_ Hg1] _]. specialize (Hin e2 He2).
      apply Hx. rewrite <- Hg1, (Hg e1 e2 Heq). done.
    + apply Forall_app. split; [|done].
      eapply Forall_impl; [exact Hall|]. intros e [[? _] ?]. done.
  - apply Forall_app. split.
    + eapply Forall_impl; [exact Hall|]. intros e [[_ ->] _]. by left.
    + eapply Forall_impl; [exact Hin|]. intros e He. by right.
Qed.

Lemma catalog_code_injective flow i j :
  (i < 15)%nat → (j < 15)%nat →
  (default ("", "") (catalog_of flow !! i)).1
  = (default ("", "") (catalog_of flow !! j)).1 →
  i = j.
Proof.
  intros Hi Hj.
  assert (NoDup (catalog_of flow).*1) as Hnd.
  { unfold catalog_of. destruct (decide (flow = "Export"));
      apply (bool_decide_unpack _); vm_compute; exact I. }
  pose proof (catalog_of_length flow) as Hlen.
  destruct (lookup_lt_is_Some_2 (catalog_of flow) i) as [ci Hci]; [lia|].
  destruct (lookup_lt_is_Some_2 (catalog_of flow) j) as [cj Hcj]; [lia|].
  rewrite Hci, Hcj. simpl. intros Heq.
  apply (NoDup_lookup _ i j ci.1 Hnd); rewrite list_lookup_fmap.
  - by rewrite Hci.
  - rewrite Hcj. simpl. by rewrite Heq.
Qed.

(** The entries that the loop over the products of a partner appends. *)
Lemma partner_chunk year month flow partner :
  year ∈ years → month ∈ months → flow ∈ flows →
  partner ∈ take 20 (partners_of flow) →
  extends np
    (num_products ← np_random_randint np 3 6;
     selected_products ←
       np_random_choice np (length (catalog_of flow)) num_products;
     for_each np selected_products
       (product_entry np year month (quarter_of_month month) flow partner
          (catalog_of flow)))
    (λ _ new,
       chunk np 3 5
         (λ e, (((True ∧ Year e = year) ∧ Month e = month) ∧ Flow e = flow)
               ∧ Partner_Country e = partner) new).
Proof.
  intros Hyear Hmonth Hflow Hpartner.
  pose proof (catalog_of_length flow) as Hlen.
  eapply extends_bind; [by apply extends_randint|].
  intros num_products ? [Hnum ->].
  eapply extends_bind; [apply extends_choice; [done|lia]|].
  intros selected ? ([r ->] & Hselected & ->).
  assert (length (choice np (length (catalog_of flow)) (Z.to_nat num_products) r).1
          = Z.to_nat num_products) as Hk
    by (apply (choice_length np Hchoice); lia).
  assert (NoDup (choice np (length (catalog_of flow)) (Z.to_nat num_products) r).1)
    as Hnd by (apply (choice_NoDup np Hchoice); lia).
  set (selected :=
         (choice np (length (catalog_of flow)) (Z.to_nat num_products) r).1) in *.
  rewrite Forall_forall in Hselected.
  eapply extends_weaken.
  { apply (extends_for_each np _ _
             (λ prod_idx new, ∃ e hs_code hs_desc,
                new = [e]
                ∧ catalog_of flow !! prod_idx = Some (hs_code, hs_desc)
                ∧ built np year month (quarter_of_month month) flow partner
                    hs_code hs_desc e
                ∧ made np e)).
    intros prod_idx Hidx. apply product_entry_made; auto. }
  simpl. intros [] new (chunks & -> & Hchunks).
  apply (chunk_weaken (length selected * 1) (length selected * 1) _ _
           (λ e, (((True ∧ Year e = year) ∧ Month e = month) ∧ Flow e = flow)
                 ∧ Partner_Country e = partner)); [lia|lia|done|].
  apply (chunk_concat
           (λ i, (default ("", "") (catalog_of flow !! i)).1) HS_Code).
  - apply NoDup_fmap_2_strong; [|done].
    intros i j Hi Hj. apply catalog_code_injective.
    + rewrite <- Hlen. by apply Hselected.
    + rewrite <- Hlen. by apply Hselected.
  - by intros e1 e2 [= _ _ _ _ ?].
  - eapply Forall2_impl; [exact Hchunks|].
    intros prod_idx new' (e & code & desc & -> & Hcode & Hbuilt & Hmade).
    apply built_fields in Hbuilt as (Hy & Hm & _ & Hf & Hp & Hc & _).
    split; [simpl; lia|]. split; [apply NoDup_singleton|].
    constructor; [|done]. split; [|done].
    rewrite Hcode. simpl. done.
Qed.

(** The entries that [generate] appends. *)
Lemma generate_chunk :
  extends np (generate np)
    (λ _ new, chunk np (4 * 2160) (4 * 3600) (λ _, True) new).
Proof.
  unfold generate.
  eapply extends_weaken;
    [apply (extends_for_each np _ _
              (λ year new,
                 chunk np 2160 3600 (λ e, True ∧ Year e = id year) new))|].
  2:{ intros [] new (chunks & -> & Hchunks).
      apply (chunk_concat id Year years chunks 2160 3600 (λ _, True));
        [apply (bool_decide_unpack _); vm_compute; exact I
        |by intros e1 e2 [= ? _ _ _ _]|exact Hchunks]. }
  intros year Hyear.
  eapply extends_weaken;
    [apply (extends_for_each np _ _
              (λ month new,
                 chunk np 180 300
                   (λ e, (True ∧ Year e = id year) ∧ Month e = id month) new))|].
  2:{ intros [] new (chunks & -> & Hchunks).
      apply (chunk_concat id Month months chunks 180 300
               (λ e, True ∧ Year e = id year));
        [apply (bool_decide_unpack _); vm_compute; exact I
        |by intros e1 e2 [= _ ? _ _ _]|exact Hchunks]. }
  intros month Hmonth.
  assert (1 ≤ month ≤ 12)%Z as Hrange.
  { unfold months in Hmonth. apply elem_of_seqZ in Hmonth. lia. }
  eapply extends_bind; [apply extends_item, quarters_month, Hrange|].
  intros ? ? [-> ->].
  eapply extends_weaken;
    [apply (extends_for_each np _ _
              (λ flow new,
                 chunk np 60 100
                   (λ e, ((True ∧ Year e = id year) ∧ Month e = id month)
                         ∧ Flow e = id flow) new))|].
  2:{ intros [] new (chunks & -> & Hchunks).
      apply (chunk_concat id Flow flows chunks 60 100
               (λ e, (True ∧ Year e = id year) ∧ Month e = id month));
        [apply (bool_decide_unpack _); vm_compute; exact I
        |by intros e1 e2 [= _ _ ? _ _]|exact Hchunks]. }
  intros flow Hflow.
  eapply (extends_bind _ _ _
            (λ p new, p = (partners_of flow, catalog_of flow) ∧ new = [])).
  { unfold partners_of. destruct (decide (flow = "Export")) as [->|Hne].
    - eapply extends_bind; [apply extends_item, catalog_of_Export|].
      intros ? ? [-> ->]. by apply extends_ret.
    - eapply extends_bind; [apply extends_item, (catalog_of_other flow Hne)|].
      intros ? ? [-> ->]. by apply extends_ret. }
  intros ? ? [-> ->].
  eapply extends_weaken;
    [apply (extends_for_each np _ _
              (λ partner new,
                 chunk np 3 5
                   (λ e, (((True ∧ Year e = id year) ∧ Month e = id month)
                          ∧ Flow e = id flow)
                         ∧ Partner_Country e = id partner) new))|].
  2:{ intros [] new (chunks & -> & Hchunks).
      assert (length (take 20 (partners_of flow)) = 20%nat) as Hlen
        by (unfold partners_of; by destruct (decide (flow = "Export"))).
      assert (NoDup (take 20 (partners_of flow))) as Hnd
        by (unfold partners_of; destruct (decide (flow = "Export"));
            apply (bool_decide_unpack _); vm_compute; exact I).
      pose proof (chunk_concat id Partner_Country (take 20 (partners_of flow))
                    chunks 3 5
                    (λ e, ((True ∧ Year e = id year) ∧ Month e = id month)
                          ∧ Flow e = id flow)) as Hconcat.
      rewrite Hlen, list_fmap_id in Hconcat.
      apply Hconcat; [done|by intros e1 e2 [= _ _ _ ? _]|exact Hchunks]. }
  intros partner Hpartner.
  by apply partner_chunk.
Qed.

Lemma dataset_chunk :
  ∃ d, dataset np = Some d ∧ chunk np (4 * 2160) (4 * 3600) (λ _, True) d.
Proof.
  unfold dataset.
  destruct (generate_chunk {| rand := seed np 42; data := [] |})
    as ([] & s & new & -> & Hdata & Hchunk).
  exists (data s). split; [done|]. by rewrite Hdata.
Qed.

End Chunks.

Section Counts.
Import Generator.

(** The stand-in generator draws the number of indices asked for, all
    different. *)
Lemma lcg_choice_spec : NumpyChoiceSpec Examples.lcg.
Proof.
  constructor; simpl.
  - intros n k r Hk. by rewrite length_fmap, length_seq.
  - intros n k r Hk. apply NoDup_fmap_2_strong; [|apply NoDup_seq].
    intros i j Hi Hj Heq. apply elem_of_seq in Hi, Hj.
    set (c := Z.to_nat (r `mod` 1000)) in *.
    pose proof (Nat.div_mod_eq (i + c) n). pose proof (Nat.div_mod_eq (j + c) n).
    assert ((i + c) `div` n = (j + c) `div` n ∨
            (i + c) `div` n < (j + c) `div` n ∨
            (j + c) `div` n < (i + c) `div` n)%nat as [?|[?|?]] by lia; nia.
Qed.

(** X24: the script generates between 8,640 and 14,400 entries: three to
    five products for each of twenty partners, three flows, twelve months
    and four years. *)
Theorem dataset_size (np : Numpy) :
  NumpySpec np → NumpyChoiceSpec np →
  ∃ d, dataset np = Some d ∧ (8640 ≤ Z.of_nat (length d) ≤ 14400)%Z.
Proof.
  intros Hnp Hchoice.
  destruct (dataset_chunk np Hnp Hchoice) as (d & Hd & Hlen & _).
  exists d. split; [done|]. lia.
Qed.

Lemma dataset_size_witness :
  ∃ d, dataset Examples.lcg = Some d
    ∧ (8640 ≤ Z.of_nat (length d) ≤ 14400)%Z.
Proof. exact (dataset_size Examples.lcg lcg_spec lcg_choice_spec). Defined.

(** X25: no two generated entries are for the same year, month, flow,
    partner and HS code. *)
Theorem observations_distinct (np : Numpy) :
  NumpySpec np → NumpyChoiceSpec np →
  ∃ d, dataset np = Some d ∧ NoDup (observation <$> d).
Proof.
  intros Hnp Hchoice.
  destruct (dataset_chunk np Hnp Hchoice) as (d & Hd & _ & Hobs & _).
  by exists d.
Qed.

Lemma observations_distinct_witness :
  ∃ d, dataset Examples.lcg = Some d ∧ NoDup (observation <$> d).
Proof. exact (observations_distinct Examples.lcg lcg_spec lcg_choice_spec). Defined.

End Counts.
